(** * DNA Center dynamic inventory: the inventory synthesis of
    [dynamic_inventory/dna_center.py], embedded and verified.

    Python values are modelled as follows.
    - [str]: a list of Unicode code points ([pystr]); the literals of the
      source are written with [str "..."] for their ASCII part and with the
      code point itself for [ä ö ü ß].
    - [int]: [Z]; the one [float], the quotient of [_get_inventory], is
      modelled as the binary64 number Python computes ([Float]).
    - the records of the remote API ([dict]s with a fixed response shape):
      Rocq records, one module per shape, fields named as the keys.
    - exceptions: the type [exn]; a method that can raise returns in the
      monad [M] defined below.
    - the DNA Center client and the Ansible inventory are collaborators
      outside the plugin: a method is run against an environment that
      answers its calls, and reports the calls it issued. *)

From Stdlib Require Import ZArith NArith Lia String Ascii.
From stdpp Require Import base tactics option list numbers gmap.

#[local] Open Scope Z_scope.
#[local] Open Scope list_scope.

(** ** Python strings *)

Abbreviation pystr := (list N).

(** An ASCII literal of the source as a code point sequence. *)
Definition str (s : string) : pystr :=
  (fun a => N_of_ascii a) <$> list_ascii_of_string s.

Module Str.

(** [s.startswith(p)] *)
Fixpoint startswith (s p : pystr) {struct p} : bool :=
  match p, s with
  | [], _ => true
  | _ :: _, [] => false
  | c :: p', d :: s' => if decide (c = d) then startswith s' p' else false
  end.

(** The scan of [s.find(sub)], [i] being the index of the head of [s]. *)
Fixpoint find_from (s sub : pystr) (i : Z) : Z :=
  if startswith s sub then i
  else match s with
       | [] => -1
       | _ :: s' => find_from s' sub (i + 1)
       end.

(** [s.find(sub)]: the lowest index where [sub] occurs in [s], else [-1]. *)
Definition find (s sub : pystr) : Z := find_from s sub 0.

(** The scan of [s.split(sep)]: [skip] counts the characters of a
    separator occurrence still to be dropped, [cur] holds the current
    piece, last character first. *)
Fixpoint split_go (sep s : pystr) (skip : nat) (cur : pystr) : list pystr :=
  match s with
  | [] => [rev cur]
  | c :: s' =>
      match skip with
      | S k => split_go sep s' k cur
      | O =>
          if startswith s sep
          then rev cur :: split_go sep s' (pred (length sep)) []
          else split_go sep s' O (c :: cur)
      end
  end.

(** [s.split(sep)] for a non-empty [sep] (Python raises [ValueError] on an
    empty separator; the source only splits on [', ']). *)
Definition split (s sep : pystr) : list pystr := split_go sep s O [].

(** [sep.join(pieces)] *)
Fixpoint join (sep : pystr) (pieces : list pystr) : pystr :=
  match pieces with
  | [] => []
  | [p] => p
  | p :: ps => p ++ sep ++ join sep ps
  end.

(** [s.translate(table)]: a code point that is a key of [table] is
    replaced by the string it maps to, every other one is kept. *)
Definition translate (table : gmap N pystr) (s : pystr) : pystr :=
  c ← s; default [c] (table !! c).

(** Lower-casing of one code point.  The table is that of [str.lower()]
    on Basic Latin and Latin-1 - [A-Z] and [À-Þ] but the multiplication
    sign - together with the four code points beyond Latin-1 whose lower
    case lies within it: [Ÿ], capital sharp s, the Kelvin and the Angstrom
    sign.  Every other code point is left as it is: the case mapping of
    Unicode beyond Latin-1 is not modelled.  So [lower] below is
    [str.lower()] on the strings of [latin1], and on every string as far
    as equality with an ASCII string goes: beyond the table, no lower case
    consists of ASCII characters only.  On a name with a cased letter
    beyond Latin-1 ([Ł], the Greek capitals, ...) [lower] keeps the
    letter where Python lower-cases it. *)
Definition lower_char (c : N) : N :=
  if decide (65 <= c <= 90)%N then (c + 32)%N
  else if decide (192 <= c <= 222 ∧ c ≠ 215)%N then (c + 32)%N
  else if decide (c = 376)%N then 255%N
  else if decide (c = 7838)%N then 223%N
  else if decide (c = 8490)%N then 107%N
  else if decide (c = 8491)%N then 229%N
  else c.

(** [s.lower()], for the strings described at [lower_char]. *)
Definition lower (s : pystr) : pystr := lower_char <$> s.

(** The strings within Latin-1: every code point is below 256. *)
Definition latin1 (s : pystr) : Prop := Forall (fun c => (c < 256)%N) s.

(** [sub in s], as a proposition: [sub] occurs somewhere in [s]. *)
Definition contains (s sub : pystr) : Prop :=
  ∃ pre post, s = pre ++ sub ++ post.

End Str.

(** ** Records of the remote API *)

(** RawDevice: one element of [devices.get_device_list(...).response]. *)
Module Device.
Record t := mk {
  family : pystr;
  managementIpAddress : pystr;
  hostname : pystr;
  id : pystr;
  softwareType : pystr;
  softwareVersion : pystr;
  reachabilityStatus : pystr;
  role : pystr;
  serialNumber : pystr;
  series : pystr
}.
End Device.

(** NormalizedHost: the [host_dict] built by [_get_hosts]. *)
Module Host.
Record t := mk {
  managementIpAddress : pystr;
  hostname : pystr;
  id : pystr;
  os : pystr;
  version : pystr;
  reachabilityStatus : pystr;
  role : pystr;
  serialNumber : list pystr;
  series : pystr;
  host_data : Device.t
}.
End Host.

Definition Unified_AP : pystr := str "Unified AP".

(** The [host_dict] of lines 180-192, for a record that passed the
    access-point test. *)
Definition host_dict_of (host : Device.t) : Host.t :=
  {| Host.managementIpAddress := Device.managementIpAddress host;
     Host.hostname := Device.hostname host;
     Host.id := Device.id host;
     Host.os := if decide (Str.find (Device.family host) Unified_AP = -1)
                then Device.softwareType host
                else Device.family host;
     Host.version := Device.softwareVersion host;
     Host.reachabilityStatus := Device.reachabilityStatus host;
     Host.role := Device.role host;
     Host.serialNumber := Str.split (Device.serialNumber host) (str ", ");
     Host.series := Device.series host;
     Host.host_data := host |}.

(** RawSite: one element of [topology.get_site_topology().response.sites]. *)
Module RawSite.
Record t := mk {
  name : pystr;
  id : pystr;
  parentId : pystr;
  locationType : pystr
}.
End RawSite.

(** NormalizedSite: the [site_dict] built by [_get_sites]. *)
Module Site.
Record t := mk {
  name : pystr;
  id : pystr;
  parentId : pystr
}.
End Site.

(** TopologyNode: one element of
    [topology.get_physical_topology().response.nodes].  The source reads
    ['additionalInfo'] and ['siteid'] with [dict.get], so either may be
    absent ([None]). *)
Module Node.
Record info := mk_info { siteid : option pystr }.
Record t := mk {
  id : pystr;
  additionalInfo : option info
}.
End Node.

(** ** The collaborators: remote API and target inventory *)

(** What [inventory.set_variable] is given as a value. *)
Inductive value :=
| VStr (s : pystr)
| VList (l : list pystr)
| VDevice (d : Device.t).

(** The calls the plugin issues to the DNA Center client
    ([self._dnac_api]), to the inventory ([self.inventory]) and to the
    [Constructable] base class. *)
Inductive call :=
| get_device_count
| get_device_list (limit offset : Z) (hostname : option pystr)
    (family : option (list pystr)) (location_name : option pystr)
| get_site_topology
| get_physical_topology
| add_group (group : pystr)
| add_child (group child : pystr)
| add_host (host group : pystr)
| set_variable (entity varname : pystr) (v : value)
| _set_composite_vars (host : pystr)
| _add_host_to_composed_groups (host : pystr)
| _add_host_to_keyed_groups (host : pystr).

(** What a call returns to the plugin. *)
Definition answer (c : call) : Type :=
  match c with
  | get_device_count => Z
  | get_device_list _ _ _ _ _ => list Device.t
  | get_site_topology => list RawSite.t
  | get_physical_topology => list Node.t
  | add_host _ _ => pystr
  | _ => unit
  end.

(** An exception raised by a collaborator, with its text. *)
Inductive raised :=
| ApiError (text : pystr)
| Exception (text : pystr).

Definition text_of (e : raised) : pystr :=
  match e with ApiError t | Exception t => t end.

(** The collaborators as one deterministic environment: the outcome of a
    call, given the calls issued before it. *)
Definition world : Type := list call → ∀ c : call, (raised + answer c)%type.

(** The messages of the plugin's own exceptions, by format string. *)
Inductive message :=
| Getting_device_count_failed (e : pystr)
| Getting_device_inventory_failed (e : pystr)
| Getting_site_topology_failed (e : pystr)
| Getting_member_site_failed (e : pystr)
| adding_child_sites_failed (e site_name parent_name : pystr)
| no_site_name_found_for_host (host_id : pystr) (site_list : option (list Site.t)).

Inductive exn :=
| Raised (e : raised)
| AnsibleError (m : message)
| AnsibleParserError (m : message)
| IndexError
| AttributeError
| TypeError
| ZeroDivisionError
| OverflowError.

(** ** Python's true division of integers and [math.ceil] *)

Module Float.

(** A finite binary64 number, [mant * 2 ^ expo]. *)
Record t := mk { mant : Z; expo : Z }.

(** [floor (log2 (a / b))] for positive [a] and [b]. *)
Definition log2_quot (a b : Z) : Z :=
  let k := Z.log2 a - Z.log2 b in
  if decide (0 <= k)
  then (if decide (b * 2 ^ k <= a) then k else k - 1)
  else (if decide (b <= a * 2 ^ (- k)) then k else k - 1).

(** [a / b / 2 ^ e] as a fraction of integers. *)
Definition scale (a b e : Z) : Z * Z :=
  if decide (0 <= e) then (a, b * 2 ^ e) else (a * 2 ^ (- e), b).

(** The integer nearest to [num / den], ties to the even one. *)
Definition round_half_even (num den : Z) : Z :=
  let q := num / den in
  let r := num mod den in
  if decide (2 * r < den) then q
  else if decide (den < 2 * r) then q + 1
  else if Z.even q then q else q + 1.

(** The binary64 nearest to [a / b] for positive [a] and [b]: 53
    significant bits, exponent not below that of the subnormals. *)
Definition div_pos (a b : Z) : t :=
  let e := Z.max (log2_quot a b - 52) (-1074) in
  mk (round_half_even (scale a b e).1 (scale a b e).2) e.

(** [a / b] on two [int]s under [from __future__ import division]: the
    exact quotient, correctly rounded. *)
Definition true_div (a b : Z) : (exn + t)%type :=
  if decide (b = 0) then inl ZeroDivisionError
  else if decide (a = 0) then inr (mk 0 0)
  else
    let x := div_pos (Z.abs a) (Z.abs b) in
    if decide (0 <= expo x ∧ 2 ^ 1024 <= mant x * 2 ^ expo x)
    then inl OverflowError
    else inr (mk (Z.sgn a * Z.sgn b * mant x) (expo x)).

(** [math.ceil(x)] *)
Definition ceil (x : t) : Z :=
  if decide (0 <= expo x) then mant x * 2 ^ expo x
  else - ((- mant x) / 2 ^ (- expo x)).

End Float.

(** The exact ceiling of [n / p], the page count of the specification. *)
Definition ceil_div (n p : Z) : Z := - ((- n) / p).

(** ** The plugin *)

(** The attributes of an [InventoryModule] instance the synthesis uses. *)
Record InventoryModule := {
  use_dnac_mgmt_int : bool;
  toplevel : option pystr;
  api_record_limit : Z;
  hostname_filter : option pystr;
  device_family : option (list pystr);
  location_name : option pystr;
  _site_list : option (list Site.t);
  _inventory : list Device.t;
  _host_list : option (list Host.t)
}.

Definition set_site_list (self : InventoryModule) (v : option (list Site.t)) :=
  {| use_dnac_mgmt_int := use_dnac_mgmt_int self; toplevel := toplevel self;
     api_record_limit := api_record_limit self;
     hostname_filter := hostname_filter self;
     device_family := device_family self; location_name := location_name self;
     _site_list := v; _inventory := _inventory self;
     _host_list := _host_list self |}.

Definition set_inventory (self : InventoryModule) (v : list Device.t) :=
  {| use_dnac_mgmt_int := use_dnac_mgmt_int self; toplevel := toplevel self;
     api_record_limit := api_record_limit self;
     hostname_filter := hostname_filter self;
     device_family := device_family self; location_name := location_name self;
     _site_list := _site_list self; _inventory := v;
     _host_list := _host_list self |}.

Definition set_host_list (self : InventoryModule) (v : option (list Host.t)) :=
  {| use_dnac_mgmt_int := use_dnac_mgmt_int self; toplevel := toplevel self;
     api_record_limit := api_record_limit self;
     hostname_filter := hostname_filter self;
     device_family := device_family self; location_name := location_name self;
     _site_list := _site_list self; _inventory := _inventory self;
     _host_list := v |}.

(** Truth value of an optional string option: [None] and [''] are false. *)
Definition truthy (s : option pystr) : bool :=
  match s with
  | Some (_ :: _) => true
  | _ => false
  end.

(** [_get_hosts]: the loop over [self._inventory], appending to
    [host_list]; returns the list and stores it in [self._host_list]. *)
Definition _get_hosts (self : InventoryModule) : list Host.t * InventoryModule :=
  let host_list :=
    foldl (fun host_list host =>
             if decide (Str.find (Device.family host) Unified_AP = -1)
             then host_list ++ [host_dict_of host]
             else host_list)
          [] (_inventory self) in
  (host_list, set_host_list self (Some host_list)).

(** The translation table of [_get_sites]:
    [ä ü ö ß ( ) space - .] by code point. *)
Definition special_char_map : gmap N pystr :=
  list_to_map
    [ (228%N, str "ae"); (252%N, str "ue"); (246%N, str "oe");
      (223%N, str "ss"); (40%N, str "_"); (41%N, str "_");
      (32%N, str "_"); (45%N, str "_"); (46%N, str "_") ].

(** The [site_dict] of lines 214-221. *)
Definition site_dict_of (site : RawSite.t) : Site.t :=
  let normalized_site_name :=
    Str.lower (Str.translate special_char_map (RawSite.name site)) in
  if decide (RawSite.locationType site = str "building")
  then {| Site.name := str "bld_" ++ normalized_site_name;
          Site.id := RawSite.id site;
          Site.parentId := RawSite.parentId site |}
  else {| Site.name := normalized_site_name;
          Site.id := RawSite.id site;
          Site.parentId := RawSite.parentId site |}.

Definition ungrouped : pystr := str "ungrouped".

(** ** The monad of the plugin's methods

    A method runs against the collaborators [w], after the calls [before]
    were issued; it raises or returns, and reports the calls it issued
    itself, in order. *)

Definition M (A : Type) : Type := world → list call → (exn + A) * list call.

Definition ret {A} (a : A) : M A := fun _ _ => (inr a, []).

Definition raise {A} (e : exn) : M A := fun _ _ => (inl e, []).

Definition bind {A B} (m : M A) (k : A → M B) : M B :=
  fun w before =>
    match m w before with
    | (inl e, issued) => (inl e, issued)
    | (inr a, issued) =>
        let r := k a w (before ++ issued) in (r.1, issued ++ r.2)
    end.

#[global] Instance M_ret : MRet M := @ret.
#[global] Instance M_bind : MBind M := fun A B k m => bind m k.

(** Issue one call to a collaborator. *)
Definition perform (c : call) : M (answer c) :=
  fun w before =>
    (match w before c with
     | inl e => inl (Raised e)
     | inr a => inr a
     end, [c]).

(** [try: m  except ApiError as e: raise handler(to_native(e))] *)
Definition except_ApiError {A} (m : M A) (handler : pystr → exn) : M A :=
  fun w before =>
    match m w before with
    | (inl (Raised (ApiError e)), issued) => (inl (handler e), issued)
    | r => r
    end.

(** [try: m  except Exception as e: raise handler(e)], around a call to a
    collaborator. *)
Definition except_Exception {A} (m : M A) (handler : pystr → exn) : M A :=
  fun w before =>
    match m w before with
    | (inl (Raised e), issued) => (inl (handler (text_of e)), issued)
    | r => r
    end.

(** An outcome that needs no collaborator. *)
Definition lift {A} (r : exn + A) : M A := fun _ _ => (r, []).

(** [for x in l: s = body(s, x)] *)
Fixpoint for_each {A S} (l : list A) (s : S) (body : S → A → M S) : M S :=
  match l with
  | [] => ret s
  | x :: l' => s' ← body s x; for_each l' s' body
  end.

(** [l[0]] *)
Definition item0 {A} (l : list A) : M A :=
  match l with
  | x :: _ => ret x
  | [] => raise IndexError
  end.

(** Iterating an attribute that is still [None] is a [TypeError]. *)
Definition iter {A} (l : option (list A)) : M (list A) :=
  match l with
  | Some l => ret l
  | None => raise TypeError
  end.

(** [if cond: m] *)
Definition when (cond : bool) (m : M unit) : M unit :=
  if cond then m else ret tt.

(** [math.ceil(device_count / api_record_limit)] *)
Definition offset_pages_of (device_count api_record_limit : Z) : exn + Z :=
  match Float.true_div device_count api_record_limit with
  | inl e => inl e
  | inr x => inr (Float.ceil x)
  end.

(** [_get_inventory] *)
Definition _get_inventory (self : InventoryModule)
  : M (list Device.t * InventoryModule) :=
  device_count ←
    except_ApiError (perform get_device_count)
      (fun e => AnsibleParserError (Getting_device_count_failed e));
  offset_pages ← lift (offset_pages_of device_count (api_record_limit self));
  self ← for_each (seqZ 0 offset_pages) self (fun self offset =>
    let start_index := offset * api_record_limit self + 1 in
    inventory_results ←
      except_ApiError
        (perform (get_device_list (api_record_limit self) start_index
                    (hostname_filter self) (device_family self)
                    (location_name self)))
        (fun e => AnsibleParserError (Getting_device_inventory_failed e));
    ret (set_inventory self (_inventory self ++ inventory_results)));
  ret (_inventory self, self).

(** [_get_sites] *)
Definition _get_sites (self : InventoryModule)
  : M (list Site.t * InventoryModule) :=
  sites ←
    except_ApiError (perform get_site_topology)
      (fun e => AnsibleError (Getting_site_topology_failed e));
  let site_list :=
    foldl (fun site_list site => site_list ++ [site_dict_of site]) [] sites in
  ret (site_list, set_site_list self (Some site_list)).

(** [_get_member_site]: the group name, or [None] when neither branch of
    the final [if] returns. *)
Definition _get_member_site (self : InventoryModule) (device_id : pystr)
  : M (option pystr) :=
  devices ←
    except_ApiError (perform get_physical_topology)
      (fun e => AnsibleError (Getting_member_site_failed e));
  device ← item0 (filter (fun dev => Node.id dev = device_id) devices);
  info ← match Node.additionalInfo device with
         | Some info => ret info
         | None => raise AttributeError
         end;
  let site_id := Node.siteid info in
  site_list ← iter (_site_list self);
  let site_name :=
    Site.name <$> filter (fun site => Some (Site.id site) = site_id) site_list in
  match site_name with
  | [name] => ret (Some name)
  | [] => ret (Some ungrouped)
  | _ => ret None
  end.

(** One iteration of the parent/child loop of [_add_sites]; [parent_name]
    is the local variable that outlives the iterations. *)
Definition _add_sites_edge (self : InventoryModule) (site_list : list Site.t)
    (site_ids : list pystr) (parent_name : pystr) (site : Site.t) : M pystr :=
  if decide (Site.parentId site ∈ site_ids) then
    parent_name ←
      item0 (Site.name <$>
               filter (fun ste => Site.id ste = Site.parentId site) site_list);
    except_Exception (perform (add_child parent_name (Site.name site)))
      (fun e => AnsibleParserError
                  (adding_child_sites_failed e (Site.name site) parent_name));;
    ret parent_name
  else if truthy (toplevel self) then
    except_Exception
      (perform (add_child (default [] (toplevel self)) (Site.name site)))
      (fun e => AnsibleParserError
                  (adding_child_sites_failed e (Site.name site) parent_name));;
    ret parent_name
  else ret parent_name.

(** [_add_sites] *)
Definition _add_sites (self : InventoryModule) : M unit :=
  site_list ← iter (_site_list self);
  let site_ids := Site.id <$> site_list in
  let parent_name := [] in
  when (truthy (toplevel self))
    (perform (add_group (default [] (toplevel self))));;
  for_each site_list tt (fun _ site => perform (add_group (Site.name site)));;
  for_each site_list parent_name (_add_sites_edge self site_list site_ids);;
  ret tt.

Definition ios_names : list pystr := [str "ios"; str "ios-xe"; str "unified ap"].
Definition nxos_names : list pystr := [str "nxos"; str "nx-os"].

(** The four variables of an automation hint set, lines 315-318 and
    320-323. *)
Definition set_network_os (host_name network_os : pystr) : M unit :=
  perform (set_variable host_name (str "ansible_network_os") (VStr network_os));;
  perform (set_variable host_name (str "ansible_connection") (VStr (str "network_cli")));;
  perform (set_variable host_name (str "ansible_become") (VStr (str "yes")));;
  perform (set_variable host_name (str "ansible_become_method") (VStr (str "enable"))).

(** One iteration of the loop of [_add_hosts]. *)
Definition _add_hosts_body (self : InventoryModule) (h : Host.t) : M unit :=
  site_name ← _get_member_site self (Host.id h);
  if truthy site_name then
    let site_name := default [] site_name in
    host_name ← perform (add_host (Host.hostname h) site_name);
    when (use_dnac_mgmt_int self)
      (perform (set_variable host_name (str "ansible_host")
                  (VStr (Host.managementIpAddress h))));;
    perform (set_variable host_name (str "os") (VStr (Host.os h)));;
    perform (set_variable host_name (str "version") (VStr (Host.version h)));;
    perform (set_variable host_name (str "reachability_status")
               (VStr (Host.reachabilityStatus h)));;
    perform (set_variable host_name (str "serial_number")
               (VList (Host.serialNumber h)));;
    perform (set_variable host_name (str "hw_type") (VStr (Host.series h)));;
    perform (set_variable host_name (str "id") (VStr (Host.id h)));;
    perform (set_variable host_name (str "site") (VStr site_name));;
    perform (set_variable host_name (str "host_data")
               (VDevice (Host.host_data h)));;
    (if decide (Str.lower (Host.os h) ∈ ios_names)
     then set_network_os host_name (str "ios")
     else if decide (Str.lower (Host.os h) ∈ nxos_names)
     then set_network_os host_name (str "nxos")
     else ret tt);;
    perform (_set_composite_vars host_name);;
    perform (_add_host_to_composed_groups host_name);;
    perform (_add_host_to_keyed_groups host_name)
  else
    raise (AnsibleError
             (no_site_name_found_for_host (Host.id h) (_site_list self))).

(** [_add_hosts] *)
Definition _add_hosts (self : InventoryModule) : M unit :=
  host_list ← iter (_host_list self);
  for_each host_list tt (fun _ h => _add_hosts_body self h).

(** The synthesis part of [parse]: the five steps after login. *)
Definition parse (self : InventoryModule) : M InventoryModule :=
  '(_, self) ← _get_inventory self;
  '(_, self) ← _get_sites self;
  _add_sites self;;
  let '(_, self) := _get_hosts self in
  _add_hosts self;;
  ret self.

(** The state of a fresh instance, as [__init__] leaves it, with the options
    [parse] reads from the configuration. *)
Definition __init__ (use_dnac_mgmt_int : bool) (toplevel : option pystr)
    (api_record_limit : Z) (hostname_filter : option pystr)
    (device_family : option (list pystr)) (location_name : option pystr)
  : InventoryModule :=
  {| use_dnac_mgmt_int := use_dnac_mgmt_int; toplevel := toplevel;
     api_record_limit := api_record_limit;
     hostname_filter := hostname_filter; device_family := device_family;
     location_name := location_name;
     _site_list := None; _inventory := []; _host_list := None |}.

(** ** Collaborator doubles

    Environments to run the plugin against: the API answers with fixed
    data, [add_host] returns the host name. *)

(** An inventory that accepts every call. *)
Definition scripted (count : Z) (page : Z → Z → list Device.t)
    (sites : list RawSite.t) (nodes : list Node.t) : world :=
  fun _ c =>
    match c return (raised + answer c)%type with
    | get_device_count => inr count
    | get_device_list limit offset _ _ _ => inr (page limit offset)
    | get_site_topology => inr sites
    | get_physical_topology => inr nodes
    | add_host host _ => inr host
    | add_group _ | add_child _ _ | set_variable _ _ _
    | _set_composite_vars _ | _add_host_to_composed_groups _
    | _add_host_to_keyed_groups _ => inr tt
    end.

(** An inventory that refuses to make a group its own child, with the
    exception Ansible's inventory raises, and accepts every other call. *)
Definition scripted_no_self_child (count : Z) (page : Z → Z → list Device.t)
    (sites : list RawSite.t) (nodes : list Node.t) : world :=
  fun before c =>
    match c return (raised + answer c)%type with
    | add_child group child =>
        if decide (group = child)
        then inl (Exception (str "can't add group to itself"))
        else inr tt
    | c => scripted count page sites nodes before c
    end.

(** ** Vocabulary of the statements *)

(** The request of page [offset] (0-indexed), as [_get_inventory] builds it. *)
Definition page_request (self : InventoryModule) (offset : Z) : call :=
  get_device_list (api_record_limit self) (offset * api_record_limit self + 1)
    (hostname_filter self) (device_family self) (location_name self).

(** The calls one iteration of the parent/child loop of [_add_sites] issues
    for [site]: they do not depend on what the collaborators answer. *)
Definition edge_calls (self : InventoryModule) (site_list : list Site.t)
    (site : Site.t) : list call :=
  match filter (fun ste => Site.id ste = Site.parentId site) site_list with
  | ste :: _ => [add_child (Site.name ste) (Site.name site)]
  | [] =>
      if truthy (toplevel self)
      then [add_child (default [] (toplevel self)) (Site.name site)]
      else []
  end.

(** The calls with which [_add_sites] registers the groups: the top-level
    group if one is configured, then one group per site. *)
Definition group_calls (self : InventoryModule) (site_list : list Site.t)
  : list call :=
  (if truthy (toplevel self) then [add_group (default [] (toplevel self))]
   else [])
  ++ (add_group ∘ Site.name <$> site_list).

(** The collaborators answer each call of [calls], issued one after the
    other once [before] was issued: none of them raises. *)
Fixpoint answered (w : world) (before calls : list call) : bool :=
  match calls with
  | [] => true
  | c :: calls' =>
      match w before c with
      | inr _ => answered w (before ++ [c]) calls'
      | inl _ => false
      end
  end.

(** The inventory refuses to make a group its own child, whatever was
    issued before.  The inventory of Ansible does: [add_child] hands the
    two groups to [Group.add_child_group], which raises
    [Exception("can't add group to itself")] when they are the same. *)
Definition refuses_self_child (w : world) : Prop :=
  ∀ before group, ∃ e, w before (add_child group group) = inl e.

(** The outcome of [_get_member_site] once the topology query is answered
    with [devices]. *)
Definition member_site_of (self : InventoryModule) (devices : list Node.t)
    (device_id : pystr) : exn + option pystr :=
  match filter (fun dev => Node.id dev = device_id) devices with
  | [] => inl IndexError
  | device :: _ =>
      match Node.additionalInfo device with
      | None => inl AttributeError
      | Some info =>
          match _site_list self with
          | None => inl TypeError
          | Some site_list =>
              inr match Site.name <$>
                          filter (fun site => Some (Site.id site) = Node.siteid info)
                            site_list with
                  | [name] => Some name
                  | [] => Some ungrouped
                  | _ => None
                  end
          end
      end
  end.

(** The base attributes of a bound host, lines 301-312, in call order. *)
Definition attribute_calls (self : InventoryModule) (h : Host.t)
    (host_name site_name : pystr) : list call :=
  (if use_dnac_mgmt_int self
   then [set_variable host_name (str "ansible_host")
           (VStr (Host.managementIpAddress h))]
   else [])
  ++ [ set_variable host_name (str "os") (VStr (Host.os h));
       set_variable host_name (str "version") (VStr (Host.version h));
       set_variable host_name (str "reachability_status")
         (VStr (Host.reachabilityStatus h));
       set_variable host_name (str "serial_number")
         (VList (Host.serialNumber h));
       set_variable host_name (str "hw_type") (VStr (Host.series h));
       set_variable host_name (str "id") (VStr (Host.id h));
       set_variable host_name (str "site") (VStr site_name);
       set_variable host_name (str "host_data") (VDevice (Host.host_data h)) ].

(** An automation directive set: network OS, [network_cli] connection,
    privilege escalation with [enable]. *)
Definition hint_calls (host_name network_os : pystr) : list call :=
  [ set_variable host_name (str "ansible_network_os") (VStr network_os);
    set_variable host_name (str "ansible_connection") (VStr (str "network_cli"));
    set_variable host_name (str "ansible_become") (VStr (str "yes"));
    set_variable host_name (str "ansible_become_method") (VStr (str "enable")) ].

(** The derived-attribute rules, lines 325-327. *)
Definition constructed_calls (host_name : pystr) : list call :=
  [ _set_composite_vars host_name;
    _add_host_to_composed_groups host_name;
    _add_host_to_keyed_groups host_name ].

(** ** Sample data *)

(** ["München (Süd)"]; [ü] is U+00FC. *)
Definition Muenchen_Sued : pystr :=
  str "M" ++ [252%N] ++ str "nchen (S" ++ [252%N] ++ str "d)".

Definition sample_device (id family softwareType serialNumber : pystr) : Device.t :=
  {| Device.family := family;
     Device.managementIpAddress := str "10.0.0.1";
     Device.hostname := str "sw-" ++ id;
     Device.id := id;
     Device.softwareType := softwareType;
     Device.softwareVersion := str "16.9.3";
     Device.reachabilityStatus := str "Reachable";
     Device.role := str "ACCESS";
     Device.serialNumber := serialNumber;
     Device.series := str "Cisco Catalyst 9300 Series Switches" |}.

Definition sample_switch : Device.t :=
  sample_device (str "d1") (str "Switches and Hubs") (str "IOS-XE")
    (str "ABC123, DEF456").

Definition sample_access_point : Device.t :=
  sample_device (str "d2") (str "Unified AP") (str "") (str "XYZ789").

Definition sample_options (toplevel : option pystr) (api_record_limit : Z)
  : InventoryModule :=
  __init__ true toplevel api_record_limit None
    (Some [str "Switches and Hubs"; str "Routers"]) None.

(** A site that names itself as its parent. *)
Definition self_parent_site : Site.t :=
  {| Site.name := str "a"; Site.id := str "1"; Site.parentId := str "1" |}.

(** The three sites of the hierarchy example of the specification. *)
Definition sample_sites : list Site.t :=
  [ {| Site.name := str "s1"; Site.id := str "1"; Site.parentId := str "0" |};
    {| Site.name := str "s2"; Site.id := str "2"; Site.parentId := str "1" |};
    {| Site.name := str "s3"; Site.id := str "3"; Site.parentId := str "99" |} ].

Definition sample_node (id siteid : pystr) : Node.t :=
  {| Node.id := id;
     Node.additionalInfo := Some {| Node.siteid := Some siteid |} |}.

(** ** Further vocabulary and doubles *)

(** What [_get_inventory] raises when a page query raises [e]: an
    [ApiError] is wrapped, any other exception is not caught. *)
Definition page_failure (e : raised) : exn :=
  match e with
  | ApiError text => AnsibleParserError (Getting_device_inventory_failed text)
  | Exception _ => Raised e
  end.

(** As [scripted], except that the page request with starting offset
    [bad_offset] raises [e]. *)
Definition scripted_failing_page (count : Z) (page : Z → Z → list Device.t)
    (bad_offset : Z) (e : raised) : world :=
  fun before c =>
    match c return (raised + answer c)%type with
    | get_device_list limit offset _ _ _ =>
        if decide (offset = bad_offset) then inl e else inr (page limit offset)
    | c => scripted count page [] [] before c
    end.

(** As [scripted], except that the inventory refuses every [add_child]. *)
Definition scripted_no_child (sites : list RawSite.t) (nodes : list Node.t)
    (e : raised) : world :=
  fun before c =>
    match c return (raised + answer c)%type with
    | add_child _ _ => inl e
    | c => scripted 0 (fun _ _ => []) sites nodes before c
    end.

(** The calls to the DNA Center client. *)
Definition is_api_call (c : call) : bool :=
  match c with
  | get_device_count | get_device_list _ _ _ _ _
  | get_site_topology | get_physical_topology => true
  | _ => false
  end.

Definition is_topology_query (c : call) : bool :=
  match c with get_physical_topology => true | _ => false end.

Definition is_add_host (c : call) : bool :=
  match c with add_host _ _ => true | _ => false end.

(** The child of an [add_child] call. *)
Definition child_of (c : call) : option pystr :=
  match c with add_child _ child => Some child | _ => None end.

(** [s.endswith(suffix)] *)
Definition endswith (s suffix : pystr) : bool :=
  Str.startswith (rev s) (rev suffix).

(** [verify_file]; [super_verify_file] is the check of the base class
    (the file exists and is readable). *)
Definition verify_file (super_verify_file : pystr → bool) (path : pystr) : bool :=
  let valid := false in
  if super_verify_file path
  then (if endswith path (str "dna_center.yml") then true else valid)
  else valid.

(** The two queries of the Device Collector. *)
Definition is_device_query (c : call) : bool :=
  match c with
  | get_device_count | get_device_list _ _ _ _ _ => true
  | _ => false
  end.

(** The two group calls of the Hierarchy Materializer. *)
Definition is_group_call (c : call) : bool :=
  match c with
  | add_group _ | add_child _ _ => true
  | _ => false
  end.

(** The code points a normalized site name is free of: space,
    parentheses, hyphen, period, and the upper-case ASCII letters. *)
Definition group_safe (c : N) : Prop :=
  (c ∉ [32%N; 40%N; 41%N; 45%N; 46%N]) ∧ ¬ (65 <= c <= 90)%N.

(** The host name of an [add_host] call. *)
Definition host_of (c : call) : option pystr :=
  match c with add_host host _ => Some host | _ => None end.

(** * Properties *)

(** ** Strings *)

Lemma startswith_spec (s p : pystr) :
  Str.startswith s p = true ↔ ∃ post, s = p ++ post.
Proof.
  revert s. induction p as [|c p IH]; intros s; simpl.
  - split; [intros _; by exists s | done].
  - destruct s as [|d s].
    + split; [done | intros [post H]; discriminate H].
    + case_decide as Hcd.
      * subst d. rewrite IH. split; intros [post H]; exists post.
        -- by rewrite H.
        -- by injection H.
      * split; [done | intros [post H]; injection H; congruence].
Qed.

Lemma contains_cons (c : N) (s sub : pystr) :
  Str.contains (c :: s) sub ↔
  Str.startswith (c :: s) sub = true ∨ Str.contains s sub.
Proof.
  rewrite startswith_spec. unfold Str.contains. split.
  - intros (pre & post & H). destruct pre as [|d pre]; simpl in H.
    + left. eauto.
    + right. injection H as _ H. eauto.
  - intros [[post H] | (pre & post & H)].
    + by exists [], post.
    + exists (c :: pre), post. by rewrite H.
Qed.

Lemma find_from_none (s sub : pystr) (i : Z) :
  0 <= i → Str.find_from s sub i = -1 ↔ ¬ Str.contains s sub.
Proof.
  revert i. induction s as [|c s IH]; intros i Hi.
  - simpl. destruct sub as [|d sub]; simpl.
    + split; [lia | intros H; destruct H; by exists [], []].
    + split; [intros _ (pre & post & H) | done].
      by destruct pre.
  - rewrite contains_cons. cbn [Str.find_from].
    destruct (Str.startswith (c :: s) sub).
    + split; [lia | tauto].
    + rewrite IH by lia. split; [intros H [?|?]; done | tauto].
Qed.

(** [s.find(sub) == -1] says that [sub] does not occur in [s]. *)
Lemma find_none_iff (s sub : pystr) :
  Str.find s sub = -1 ↔ ¬ Str.contains s sub.
Proof. by apply find_from_none. Qed.

Lemma split_go_nonempty (sep s : pystr) (skip : nat) (cur : pystr) :
  Str.split_go sep s skip cur ≠ [].
Proof.
  revert skip cur. induction s as [|c s IH]; intros skip cur; simpl; [done|].
  destruct skip; [|apply IH]. destruct (Str.startswith (c :: s) sep); [done|].
  apply IH.
Qed.

Lemma join_cons (sep p : pystr) (ps : list pystr) :
  ps ≠ [] → Str.join sep (p :: ps) = p ++ sep ++ Str.join sep ps.
Proof. by destruct ps. Qed.

Lemma split_go_join (sep s : pystr) :
  sep ≠ [] →
  ∀ (skip : nat) (cur : pystr),
    Str.join sep (Str.split_go sep s skip cur) = rev cur ++ drop skip s.
Proof.
  intros Hsep. induction s as [|c s IH]; intros skip cur.
  - simpl. by rewrite drop_nil, app_nil_r.
  - cbn [Str.split_go]. destruct skip as [|k]; [|by rewrite IH].
    destruct (Str.startswith (c :: s) sep) eqn:Hsw.
    + rewrite join_cons by apply split_go_nonempty. rewrite IH.
      apply startswith_spec in Hsw as [post Hpost].
      destruct sep as [|d sep]; [done|]. simpl in *.
      injection Hpost as -> ->. by rewrite drop_app_length.
    + rewrite IH. simpl. by rewrite <- app_assoc.
Qed.

(** Joining the pieces of a split with the separator gives the string
    back. *)
Lemma join_split (s sep : pystr) :
  sep ≠ [] → Str.join sep (Str.split s sep) = s.
Proof. intros Hsep. unfold Str.split. by rewrite split_go_join. Qed.

(** ** Device Normalizer: [_get_hosts] *)

Lemma _get_hosts_loop (acc : list Host.t) (inventory : list Device.t) :
  foldl (fun host_list host =>
           if decide (Str.find (Device.family host) Unified_AP = -1)
           then host_list ++ [host_dict_of host]
           else host_list) acc inventory
  = acc ++ (host_dict_of <$>
              filter (fun host => Str.find (Device.family host) Unified_AP = -1)
                inventory).
Proof.
  revert acc. induction inventory as [|d l IH]; intros acc; simpl.
  - by rewrite app_nil_r.
  - rewrite IH, filter_cons. case_decide; [|done]. by rewrite <- app_assoc.
Qed.

Lemma _get_hosts_eq (self : InventoryModule) :
  (_get_hosts self).1
  = host_dict_of <$>
      filter (fun host => Str.find (Device.family host) Unified_AP = -1)
        (_inventory self).
Proof. unfold _get_hosts. simpl. by rewrite _get_hosts_loop. Qed.

Lemma _get_hosts_elem (self : InventoryModule) (h : Host.t) :
  h ∈ (_get_hosts self).1 →
  h = host_dict_of (Host.host_data h)
  ∧ Host.host_data h ∈ _inventory self
  ∧ Str.find (Device.family (Host.host_data h)) Unified_AP = -1.
Proof.
  rewrite _get_hosts_eq. intros (d & -> & Hd)%list_elem_of_fmap.
  by apply list_elem_of_filter in Hd as [Hk Hd].
Qed.

(** Claim C5.  Whatever [self._inventory] holds: [find] returns [-1]
    exactly on the families without the substring ["Unified AP"]; no
    normalized host stems from a record whose family contains it; and the
    records behind the normalized hosts are, in order and with their
    multiplicity, the records of the inventory whose family does not
    contain it - each of those yields one host, its [host_dict]. *)
Theorem access_points_never_inventoried (self : InventoryModule) :
  (∀ family, Str.find family Unified_AP = -1 ↔ ¬ Str.contains family Unified_AP)
  ∧ (∀ host, Str.contains (Device.family host) Unified_AP →
       ∀ h, h ∈ (_get_hosts self).1 → Host.host_data h ≠ host)
  ∧ Host.host_data <$> (_get_hosts self).1
    = filter (fun host => Str.find (Device.family host) Unified_AP = -1)
        (_inventory self)
  ∧ (∀ h, h ∈ (_get_hosts self).1 → h = host_dict_of (Host.host_data h)).
Proof.
  split; [intros; apply find_none_iff|]. split; [|split].
  - intros host Hap h Hh <-. apply _get_hosts_elem in Hh as (_ & _ & Hf).
    by apply find_none_iff in Hf.
  - rewrite _get_hosts_eq, <- list_fmap_compose. apply list_fmap_id.
  - intros h Hh. by apply _get_hosts_elem in Hh as [? _].
Qed.

(** Claim C8.  Splitting on [', ']: the two examples, and the
    [serialNumber] of every [host_dict] is that split of the raw field. *)
Theorem serial_numbers_split :
  Str.split (str "ABC123, DEF456") (str ", ") = [str "ABC123"; str "DEF456"]
  ∧ Str.split (str "XYZ789") (str ", ") = [str "XYZ789"]
  ∧ (∀ host, Host.serialNumber (host_dict_of host)
             = Str.split (Device.serialNumber host) (str ", "))
  ∧ (∀ self h, h ∈ (_get_hosts self).1 →
       Host.serialNumber h
       = Str.split (Device.serialNumber (Host.host_data h)) (str ", ")).
Proof.
  repeat split. intros self h Hh. apply _get_hosts_elem in Hh as [Hd _].
  by rewrite Hd at 1.
Qed.

(** Claim C9.  Every normalized host has the [softwareType] of its record
    as [os]: its family does not contain ["Unified AP"], so the conditional
    of line 185 never yields the family. *)
Theorem os_is_softwareType (self : InventoryModule) :
  (∀ h, h ∈ (_get_hosts self).1 →
     Host.os h = Device.softwareType (Host.host_data h))
  ∧ (∀ h, h ∈ (_get_hosts self).1 →
     ¬ Str.contains (Device.family (Host.host_data h)) Unified_AP).
Proof.
  split; intros h Hh; apply _get_hosts_elem in Hh as (Hd & _ & Hf).
  - rewrite Hd at 1. simpl. by rewrite decide_True.
  - by apply find_none_iff.
Qed.

(** ** Running a method *)

Lemma run_bind {A B} (m : M A) (k : A → M B) (w : world) (before : list call) :
  (m ≫= k) w before =
  match m w before with
  | (inl e, issued) => (inl e, issued)
  | (inr a, issued) =>
      ((k a w (before ++ issued)).1, issued ++ (k a w (before ++ issued)).2)
  end.
Proof. reflexivity. Qed.

Lemma run_bind_ok {A B} (m : M A) (k : A → M B) w before a issued :
  m w before = (inr a, issued) →
  (m ≫= k) w before =
  ((k a w (before ++ issued)).1, issued ++ (k a w (before ++ issued)).2).
Proof. intros H. by rewrite run_bind, H. Qed.

Lemma run_bind_inv {A B} (m : M A) (k : A → M B) w before b issued :
  (m ≫= k) w before = (inr b, issued) →
  ∃ a issued1 issued2,
    m w before = (inr a, issued1)
    ∧ k a w (before ++ issued1) = (inr b, issued2)
    ∧ issued = issued1 ++ issued2.
Proof.
  rewrite run_bind. destruct (m w before) as [[e|a] issued1]; [done|].
  destruct (k a w (before ++ issued1)) as [r issued2] eqn:Hk. simpl.
  intros [= -> <-]. eauto 6.
Qed.

Lemma run_perform (c : call) (w : world) (before : list call) (a : answer c) :
  w before c = inr a → perform c w before = (inr a, [c]).
Proof. intros H. unfold perform. by rewrite H. Qed.

Lemma run_perform_inv (c : call) w before (a : answer c) issued :
  perform c w before = (inr a, issued) → w before c = inr a ∧ issued = [c].
Proof.
  unfold perform. destruct (w before c) as [e|a']; [done|].
  by intros [= -> <-].
Qed.

Lemma run_except_ApiError_ok {A} (m : M A) handler w before a issued :
  m w before = (inr a, issued) →
  except_ApiError m handler w before = (inr a, issued).
Proof. intros H. unfold except_ApiError. by rewrite H. Qed.

Lemma for_each_app {A S} (body : S → A → M S) (l1 l2 : list A) w :
  ∀ s before,
    for_each (l1 ++ l2) s body w before
    = (for_each l1 s body ≫= fun s1 => for_each l2 s1 body) w before.
Proof.
  induction l1 as [|x l1 IH]; intros s before.
  - rewrite run_bind. simpl. rewrite app_nil_r.
    by destruct (for_each l2 s body w before).
  - cbn [app for_each]. rewrite !run_bind.
    destruct (body s x w before) as [[e|s1] i1]; [done|].
    rewrite IH, run_bind.
    destruct (for_each l1 s1 body w (before ++ i1)) as [[e|s2] i2]; [done|].
    cbn [fst snd]. by rewrite !app_assoc.
Qed.

(** A loop whose iterations issue calls that depend on the element only:
    when it completes, it has issued them all, in order. *)
Lemma for_each_issued {A S} (body : S → A → M S) (calls : A → list call)
    (l : list A) w :
  (∀ s x before, (body s x w before).2 = calls x) →
  ∀ s before s' issued,
    for_each l s body w before = (inr s', issued) →
    issued = concat (calls <$> l).
Proof.
  intros Hbody. induction l as [|x l IH]; intros s before s' issued.
  - by intros [= _ <-].
  - cbn [for_each]. intros (s1 & i1 & i2 & H1 & H2 & ->)%run_bind_inv.
    apply IH in H2 as ->. pose proof (Hbody s x before) as Hx.
    rewrite H1 in Hx. simpl in Hx. by subst i1.
Qed.

#[local] Ltac run_inv H :=
  repeat match type of H with
    | (_ ≫= _) _ _ = (inr _, _) =>
        let a := fresh "a" in let i := fresh "i" in let H1 := fresh "H" in
        apply run_bind_inv in H as (a & i & ? & H1 & H & ->);
        first [ apply run_perform_inv in H1 as [H1 ->] | idtac ]
    | perform ?c _ _ = (inr _, _) => apply (run_perform_inv c) in H as [H ->]
    end.

(** ** Page count: binary64 division and ceiling *)

Lemma log2_quot_spec (a b : Z) :
  0 < a → 0 < b →
  let l := Float.log2_quot a b in
  (0 <= l → b * 2 ^ l <= a < b * 2 ^ (l + 1))
  ∧ (l < 0 → b <= a * 2 ^ (- l) < 2 * b).
Proof.
  intros Ha Hb. unfold Float.log2_quot.
  pose proof (Z.log2_spec a Ha) as [HA1 HA2].
  pose proof (Z.log2_spec b Hb) as [HB1 HB2].
  pose proof (Z.log2_nonneg a) as Hla. pose proof (Z.log2_nonneg b) as Hlb.
  rewrite <- Z.add_1_r, Z.pow_add_r, Z.pow_1_r in HA2, HB2 by lia.
  set (la := Z.log2 a) in *. set (lb := Z.log2 b) in *.
  destruct (decide (0 <= la - lb)) as [Hk|Hk].
  - assert (2 ^ la = 2 ^ lb * 2 ^ (la - lb)) as HAB
      by (rewrite <- Z.pow_add_r by lia; f_equal; lia).
    assert (0 < 2 ^ (la - lb)) as HK by (apply Z.pow_pos_nonneg; lia).
    destruct (decide (b * 2 ^ (la - lb) <= a)) as [Hle|Hle]; cbv zeta.
    + split; [intros _|lia].
      rewrite Z.pow_add_r, Z.pow_1_r by lia. nia.
    + destruct (decide (la - lb = 0)) as [H0|H0].
      * rewrite H0 in *. change (2 ^ 0) with 1 in *.
        split; [lia|intros _]. change (- (0 - 1)) with 1. lia.
      * assert (2 ^ (la - lb) = 2 * 2 ^ (la - lb - 1)) as HK'
          by (rewrite <- Z.pow_succ_r by lia; f_equal; lia).
        split; [intros _|lia].
        replace (la - lb - 1 + 1) with (la - lb) by lia. nia.
  - assert (2 ^ lb = 2 ^ la * 2 ^ (- (la - lb))) as HAB
      by (rewrite <- Z.pow_add_r by lia; f_equal; lia).
    assert (0 < 2 ^ (- (la - lb))) as HK by (apply Z.pow_pos_nonneg; lia).
    destruct (decide (b <= a * 2 ^ (- (la - lb)))) as [Hle|Hle]; cbv zeta.
    + split; [lia|intros _]. nia.
    + split; [lia|intros _].
      replace (- (la - lb - 1)) with (Z.succ (- (la - lb))) by lia.
      rewrite Z.pow_succ_r by lia. nia.
Qed.

Lemma ceil_div_spec (n p : Z) :
  0 < p → (ceil_div n p - 1) * p < n <= ceil_div n p * p.
Proof.
  intros Hp. unfold ceil_div.
  pose proof (Z.div_mod (- n) p) as Hdm.
  pose proof (Z.mod_pos_bound (- n) p Hp). nia.
Qed.

(** Rounding a quotient that has at least 53 significant bits before the
    binary point of [t] never crosses an integer. *)
Lemma round_half_even_ceil (n p t : Z) :
  0 < n < 2 ^ 53 → 0 < p → 0 < t → 2 ^ 52 * p <= n * t →
  (ceil_div n p - 1) * t < Float.round_half_even (n * t) p <= ceil_div n p * t.
Proof.
  intros Hn Hp Ht Hlow.
  pose proof (ceil_div_spec n p Hp) as Hc.
  set (c := ceil_div n p) in *.
  pose proof (Z.div_mod (n * t) p) as Hdm.
  pose proof (Z.mod_pos_bound (n * t) p Hp) as Hr.
  unfold Float.round_half_even. cbv zeta.
  set (q := n * t / p) in *. set (r := (n * t) mod p) in *.
  assert (p * q <= c * p * t) as Hup by nia.
  assert (q <= c * t) as Hq1 by nia.
  assert ((c - 1) * p * t < p * (q + 1)) as Hlo by nia.
  assert ((c - 1) * t < q + 1) as Hq2 by nia.
  assert (p < 2 * t) as Hpt.
  { assert (n * t < 2 ^ 53 * t) by nia. change (2 ^ 53) with (2 * 2 ^ 52) in *.
    nia. }
  assert (r < t → (c - 1) * t < q) as Hsmall.
  { intros Hrt. destruct (decide ((c - 1) * t < q)) as [|Hn']; [done|].
    assert (q = (c - 1) * t) as Hq by lia.
    assert ((c - 1) * p * t + t <= n * t) by nia. nia. }
  assert (0 < r → q < c * t) as Hbig.
  { intros Hr0. destruct (decide (q < c * t)) as [|Hn']; [done|].
    assert (q = c * t) as Hq by lia. nia. }
  repeat case_decide; try destruct (Z.even q); lia.
Qed.

Lemma log2_quot_bounds (n p : Z) :
  0 < n < 2 ^ 53 → 0 < p < 2 ^ 53 →
  -53 <= Float.log2_quot n p <= 52
  ∧ 2 ^ 52 * p <= n * 2 ^ (52 - Float.log2_quot n p) < 2 ^ 53 * p.
Proof.
  intros Hn Hp.
  pose proof (log2_quot_spec n p ltac:(lia) ltac:(lia)) as [Hpos Hneg].
  cbv zeta in Hpos, Hneg. set (l := Float.log2_quot n p) in *.
  destruct (decide (0 <= l)) as [Hl|Hl].
  - specialize (Hpos Hl). clear Hneg.
    rewrite Z.pow_add_r, Z.pow_1_r in Hpos by lia.
    assert (0 < 2 ^ l) as Hpl by (apply Z.pow_pos_nonneg; lia).
    assert (l <= 52) as Hl52.
    { destruct (decide (l <= 52)) as [|Hbig]; [done|].
      pose proof (Z.pow_le_mono_r 2 53 l ltac:(lia) ltac:(lia)). nia. }
    split; [lia|].
    assert (2 ^ 52 = 2 ^ l * 2 ^ (52 - l)) as H52
      by (rewrite <- Z.pow_add_r by lia; f_equal; lia).
    assert (0 < 2 ^ (52 - l)) by (apply Z.pow_pos_nonneg; lia).
    change (2 ^ 53) with (2 * 2 ^ 52). rewrite H52. nia.
  - specialize (Hneg ltac:(lia)). clear Hpos.
    assert (0 < 2 ^ (- l)) as Hpl by (apply Z.pow_pos_nonneg; lia).
    assert (-53 <= l) as Hl53.
    { destruct (decide (-53 <= l)) as [|Hbig]; [done|].
      pose proof (Z.pow_le_mono_r 2 54 (- l) ltac:(lia) ltac:(lia)).
      change (2 ^ 54) with (2 * 2 ^ 53) in *. nia. }
    split; [lia|].
    replace (52 - l) with (52 + - l) by lia.
    rewrite Z.pow_add_r by lia.
    change (2 ^ 53) with (2 * 2 ^ 52). nia.
Qed.

(** Below [2 ^ 53] the page count computed on floats is the exact ceiling. *)
Lemma offset_pages_exact (n p : Z) :
  0 <= n < 2 ^ 53 → 0 < p < 2 ^ 53 →
  offset_pages_of n p = inr (ceil_div n p).
Proof.
  intros Hn Hp. unfold offset_pages_of, Float.true_div.
  rewrite decide_False by lia.
  destruct (decide (n = 0)) as [->|Hn0].
  { unfold Float.ceil, ceil_div. simpl. by rewrite Z.div_0_l by lia. }
  rewrite (Z.abs_eq n), (Z.abs_eq p) by lia.
  rewrite (Z.sgn_pos n), (Z.sgn_pos p) by lia.
  pose proof (log2_quot_bounds n p ltac:(lia) Hp) as [Hl Hscaled].
  unfold Float.div_pos. cbv zeta.
  set (l := Float.log2_quot n p) in *.
  rewrite Z.max_l by lia.
  set (t := 2 ^ (52 - l)) in *.
  assert (0 < t) as Ht by (apply Z.pow_pos_nonneg; lia).
  assert (Float.scale n p (l - 52) = (n * t, p)) as ->.
  { unfold Float.scale. case_decide as He.
    - assert (l = 52) as Hl52 by lia. subst t. rewrite Hl52.
      change (2 ^ (52 - 52)) with 1. f_equal; lia.
    - subst t. do 3 f_equal. lia. }
  cbn [fst snd Float.mant Float.expo].
  pose proof (round_half_even_ceil n p t ltac:(lia) ltac:(lia) Ht ltac:(lia))
    as Hm.
  set (m := Float.round_half_even (n * t) p) in *.
  pose proof (ceil_div_spec n p ltac:(lia)) as Hc.
  set (c := ceil_div n p) in *.
  assert (c <= 2 ^ 53) as Hcb by nia.
  assert (1 <= c) as Hc1 by nia.
  assert (0 <= (c - 1) * t) as Hct0 by nia.
  assert (c * t <= 2 ^ 53 * t) as Hct1 by nia.
  rewrite decide_False; cycle 1.
  { intros [He Hover]. assert (l = 52) as Hl52 by lia.
    subst t. rewrite Hl52 in *. change (2 ^ (52 - 52)) with 1 in *.
    assert (2 ^ 53 < 2 ^ 1024) by (apply Z.pow_lt_mono_r; lia). lia. }
  f_equal. unfold Float.ceil. cbn [Float.mant Float.expo].
  replace (1 * 1 * m) with m by lia.
  case_decide as He.
  - assert (l = 52) as Hl52 by lia. subst t. rewrite Hl52 in *.
    change (2 ^ (52 - 52)) with 1 in *. lia.
  - replace (- (l - 52)) with (52 - l) by lia. fold t.
    assert ((- m) / t = - c) as ->; [|lia].
    symmetry. apply (Z.div_unique_pos (- m) t (- c) (c * t - m)); lia.
Qed.

(** ** Device Collector: [_get_inventory] *)

Lemma seqZ_to_nat (m n : Z) : seqZ m n = seqZ m (Z.of_nat (Z.to_nat n)).
Proof. unfold seqZ. by rewrite Nat2Z.id. Qed.

(** The page loop, started at page [m] for [k] pages, every request being
    answered. *)
Lemma pages_loop (w : world) (page : Z → list Device.t) (k : nat) :
  ∀ (m : Z) (self : InventoryModule) (before : list call),
    (∀ j : nat, (j < k)%nat →
       w (before ++ (page_request self <$> seqZ m (Z.of_nat j)))
         (page_request self (m + Z.of_nat j)) = inr (page (m + Z.of_nat j))) →
    for_each (seqZ m (Z.of_nat k)) self (fun self offset =>
      let start_index := offset * api_record_limit self + 1 in
      inventory_results ←
        except_ApiError
          (perform (get_device_list (api_record_limit self) start_index
                      (hostname_filter self) (device_family self)
                      (location_name self)))
          (fun e => AnsibleParserError (Getting_device_inventory_failed e));
      ret (set_inventory self (_inventory self ++ inventory_results))) w before
    = (inr (set_inventory self
              (_inventory self ++ concat (page <$> seqZ m (Z.of_nat k)))),
       page_request self <$> seqZ m (Z.of_nat k)).
Proof.
  induction k as [|k IH]; intros m self before Hw.
  - simpl. rewrite app_nil_r. by destruct self.
  - rewrite Nat2Z.inj_succ, seqZ_cons by lia.
    replace (Z.pred (Z.succ (Z.of_nat k))) with (Z.of_nat k) by lia.
    cbn [for_each].
    pose proof (Hw 0%nat ltac:(lia)) as H0.
    simpl in H0. rewrite app_nil_r, Z.add_0_r in H0.
    erewrite run_bind_ok; cycle 1.
    { erewrite run_bind_ok; cycle 1.
      { apply run_except_ApiError_ok.
        apply (run_perform (page_request self m)). exact H0. }
      reflexivity. }
    cbn [fst snd ret]. rewrite app_nil_r, IH.
    + cbn [fst snd fmap list_fmap concat app _inventory set_inventory].
      by rewrite <- app_assoc.
    + intros j Hj. specialize (Hw (S j) ltac:(lia)).
      rewrite Nat2Z.inj_succ, seqZ_cons in Hw by lia.
      replace (Z.pred (Z.succ (Z.of_nat j))) with (Z.of_nat j) in Hw by lia.
      rewrite <- app_assoc. cbn [fmap list_fmap app] in Hw |- *.
      replace (Z.succ m + Z.of_nat j) with (m + Z.succ (Z.of_nat j)) by lia.
      exact Hw.
Qed.

(** [_get_inventory] with every query answered: the count [n], page [j]
    with [page j].  [pages] is the page count as the source computes it. *)
Lemma _get_inventory_run (self : InventoryModule) (w : world)
    (before : list call) (n pages : Z) (page : Z → list Device.t) :
  w before get_device_count = inr n →
  offset_pages_of n (api_record_limit self) = inr pages →
  (∀ j : nat, Z.of_nat j < pages →
     w (before ++ get_device_count
               :: (page_request self <$> seqZ 0 (Z.of_nat j)))
       (page_request self (Z.of_nat j)) = inr (page (Z.of_nat j))) →
  let inventory := _inventory self ++ concat (page <$> seqZ 0 pages) in
  _get_inventory self w before
  = (inr (inventory, set_inventory self inventory),
     get_device_count :: (page_request self <$> seqZ 0 pages)).
Proof.
  intros Hcount Hpages Hw inventory. unfold _get_inventory.
  erewrite run_bind_ok; cycle 1.
  { apply run_except_ApiError_ok. apply (run_perform get_device_count).
    exact Hcount. }
  erewrite run_bind_ok; cycle 1.
  { unfold lift. rewrite Hpages. reflexivity. }
  rewrite app_nil_r.
  erewrite run_bind_ok; cycle 1.
  { rewrite (seqZ_to_nat 0 pages). apply (pages_loop w page).
    intros j Hj. rewrite <- app_assoc. apply Hw. lia. }
  cbn [fst snd ret app _inventory set_inventory].
  by rewrite app_nil_r, <- !seqZ_to_nat.
Qed.

(** Claim C4, as amended.  On a fresh instance, for a device count
    [0 <= n < 2 ^ 53] and a page size [0 < p < 2 ^ 53], with the count query
    and every page query answered: the calls issued are the count query
    and then one request per page [i = 0, ..., ceil (n / p) - 1], in that
    order, each with limit [p] and offset [i * p + 1]; their number is
    [ceil (n / p)]; the result is the concatenation of the pages in request
    order, each page as it was answered; and for [n = 0] no page is
    requested and the result is empty. *)
Theorem device_collection_pages (use_mgmt : bool) (top hostname : option pystr)
    (family : option (list pystr)) (location : option pystr)
    (w : world) (before : list call) (n p : Z) (page : Z → list Device.t) :
  let self := __init__ use_mgmt top p hostname family location in
  let request i := get_device_list p (i * p + 1) hostname family location in
  0 <= n < 2 ^ 53 → 0 < p < 2 ^ 53 →
  w before get_device_count = inr n →
  (∀ i : nat, Z.of_nat i < ceil_div n p →
     w (before ++ get_device_count :: (request <$> seqZ 0 (Z.of_nat i)))
       (request (Z.of_nat i)) = inr (page (Z.of_nat i))) →
  let pages := seqZ 0 (ceil_div n p) in
  _get_inventory self w before
  = (inr (concat (page <$> pages),
          set_inventory self (concat (page <$> pages))),
     get_device_count :: (request <$> pages))
  ∧ Z.of_nat (length (request <$> pages)) = ceil_div n p
  ∧ (n = 0 →
     _get_inventory self w before = (inr ([], self), [get_device_count])).
Proof.
  intros self request Hn Hp Hcount Hw pages.
  pose proof (offset_pages_exact n p Hn Hp) as Hpages.
  pose proof (_get_inventory_run self w before n (ceil_div n p) page
                Hcount Hpages Hw) as Hrun.
  cbv zeta in Hrun. cbn [_inventory self __init__ app] in Hrun.
  pose proof (ceil_div_spec n p ltac:(lia)) as Hc.
  split; [exact Hrun|]. split.
  - rewrite length_fmap. unfold pages. rewrite length_seqZ. nia.
  - intros ->. rewrite Hrun.
    assert (ceil_div 0 p = 0) as -> by (unfold ceil_div; simpl; by rewrite Z.div_0_l by lia).
    reflexivity.
Qed.

(** A run of three devices in pages of two. *)
Lemma device_collection_pages_witness :
  let page i := if decide (i = 0) then [sample_switch; sample_access_point]
                else [sample_switch] in
  let w := scripted 3 (fun limit offset => page ((offset - 1) / limit)) [] [] in
  let self := sample_options None 2 in
  _get_inventory self w []
  = (inr ([sample_switch; sample_access_point; sample_switch],
          set_inventory self [sample_switch; sample_access_point; sample_switch]),
     [ get_device_count;
       get_device_list 2 1 None (Some [str "Switches and Hubs"; str "Routers"]) None;
       get_device_list 2 3 None (Some [str "Switches and Hubs"; str "Routers"]) None ]).
Proof.
  intros page w self.
  refine (proj1 (device_collection_pages true None None
            (Some [str "Switches and Hubs"; str "Routers"]) None w [] 3 2 page
            _ _ _ _)).
  - lia.
  - lia.
  - reflexivity.
  - intros i Hi. change (ceil_div 3 2) with 2 in Hi.
    assert (i = 0%nat ∨ i = 1%nat) as [-> | ->] by lia; reflexivity.
Defined.

(** Claim C4 as stated fails beyond the exact range of binary64: for
    [2 ^ 53 + 1] devices in pages of one, [math.ceil(n / p)] is [2 ^ 53], so
    [2 ^ 53] pages are requested where [ceil (n / p)] is [2 ^ 53 + 1]. *)
Lemma device_collection_pages_inexact :
  offset_pages_of (2 ^ 53 + 1) 1 = inr (2 ^ 53)
  ∧ (_get_inventory (sample_options None 1)
       (scripted (2 ^ 53 + 1) (fun _ _ => []) [] []) []).2
    = get_device_count
      :: (page_request (sample_options None 1) <$> seqZ 0 (2 ^ 53))
  ∧ Z.of_nat (length (page_request (sample_options None 1)
                        <$> seqZ 0 (2 ^ 53))) = 2 ^ 53
  ∧ ceil_div (2 ^ 53 + 1) 1 = 2 ^ 53 + 1.
Proof.
  assert (offset_pages_of (2 ^ 53 + 1) 1 = inr (2 ^ 53)) as Hpages
    by (vm_compute; reflexivity).
  split; [exact Hpages|]. split; [|split].
  - rewrite (_get_inventory_run _ _ [] (2 ^ 53 + 1) (2 ^ 53) (fun _ => []));
      [reflexivity | reflexivity | exact Hpages | intros; reflexivity].
  - rewrite length_fmap, length_seqZ, Z2Nat.id; lia.
  - vm_compute; reflexivity.
Qed.

(** ** Site Topology Builder: [_get_sites] *)

Lemma _get_sites_loop (acc : list Site.t) (sites : list RawSite.t) :
  foldl (fun site_list site => site_list ++ [site_dict_of site]) acc sites
  = acc ++ (site_dict_of <$> sites).
Proof.
  revert acc. induction sites as [|site sites IH]; intros acc; simpl.
  - by rewrite app_nil_r.
  - by rewrite IH, <- app_assoc.
Qed.

Lemma _get_sites_run (self : InventoryModule) (w : world) (before : list call)
    (sites : list RawSite.t) :
  w before get_site_topology = inr sites →
  _get_sites self w before
  = (inr (site_dict_of <$> sites,
          set_site_list self (Some (site_dict_of <$> sites))),
     [get_site_topology]).
Proof.
  intros Hw. unfold _get_sites.
  erewrite run_bind_ok; cycle 1.
  { apply run_except_ApiError_ok. apply (run_perform get_site_topology).
    exact Hw. }
  by rewrite _get_sites_loop.
Qed.

(** Claim C2, as amended.  The site ["München (Süd)"] is normalized to
    exactly [bld_muenchen__sued_] when its locationType is [building] and to
    exactly [muenchen__sued_] otherwise: one pass over the name replaces
    each [ü] by [ue] and each of the space and the two parentheses by an
    underscore of its own, and the result is then lower-cased. *)
Theorem site_name_normalization (self : InventoryModule) (w : world)
    (before : list call) (id parentId locationType : pystr) :
  w before get_site_topology
  = inr [ {| RawSite.name := Muenchen_Sued; RawSite.id := id;
             RawSite.parentId := parentId;
             RawSite.locationType := locationType |} ] →
  let name := if decide (locationType = str "building")
              then str "bld_muenchen__sued_" else str "muenchen__sued_" in
  let site_list :=
    [ {| Site.name := name; Site.id := id; Site.parentId := parentId |} ] in
  Str.translate special_char_map Muenchen_Sued = str "Muenchen__Sued_"
  ∧ Str.lower (str "Muenchen__Sued_") = str "muenchen__sued_"
  ∧ _get_sites self w before
    = (inr (site_list, set_site_list self (Some site_list)),
       [get_site_topology]).
Proof.
  intros Hw name site_list.
  split; [by vm_compute|]. split; [by vm_compute|].
  rewrite (_get_sites_run self w before _ Hw). unfold site_list, name.
  cbn [fmap list_fmap]. unfold site_dict_of. cbn [RawSite.locationType].
  by case_decide.
Qed.

Lemma site_name_normalization_witness :
  let w := scripted 0 (fun _ _ => [])
             [ {| RawSite.name := Muenchen_Sued; RawSite.id := str "7";
                  RawSite.parentId := str "1";
                  RawSite.locationType := str "floor" |} ] [] in
  let site_list :=
    [ {| Site.name := str "muenchen__sued_"; Site.id := str "7";
         Site.parentId := str "1" |} ] in
  _get_sites (sample_options None 500) w []
  = (inr (site_list, set_site_list (sample_options None 500) (Some site_list)),
     [get_site_topology]).
Proof.
  intros w site_list.
  exact (proj2 (proj2 (site_name_normalization (sample_options None 500) w []
                         (str "7") (str "1") (str "floor") eq_refl))).
Defined.

(** Claim C2 as stated fails: the building ["München (Süd)"] becomes
    [bld_muenchen__sued_], with two underscores in the middle and one at
    the end, and not [bld_muenchen_sued]; likewise for a floor. *)
Lemma site_name_keeps_every_underscore :
  let building :=
    {| RawSite.name := Muenchen_Sued; RawSite.id := str "7";
       RawSite.parentId := str "1"; RawSite.locationType := str "building" |} in
  let floor :=
    {| RawSite.name := Muenchen_Sued; RawSite.id := str "8";
       RawSite.parentId := str "7"; RawSite.locationType := str "floor" |} in
  (_get_sites (sample_options None 500)
     (scripted 0 (fun _ _ => []) [building; floor] []) []).1
  = inr ([ {| Site.name := str "bld_muenchen__sued_"; Site.id := str "7";
              Site.parentId := str "1" |};
           {| Site.name := str "muenchen__sued_"; Site.id := str "8";
              Site.parentId := str "7" |} ],
         set_site_list (sample_options None 500)
           (Some [ {| Site.name := str "bld_muenchen__sued_"; Site.id := str "7";
                      Site.parentId := str "1" |};
                   {| Site.name := str "muenchen__sued_"; Site.id := str "8";
                      Site.parentId := str "7" |} ]))
  ∧ str "bld_muenchen__sued_" ≠ str "bld_muenchen_sued"
  ∧ str "muenchen__sued_" ≠ str "muenchen_sued".
Proof. by vm_compute. Qed.

(** ** Hierarchy Materializer: [_add_sites] *)

(** [site['parentId'] in site_ids] says that some site has that id. *)
Lemma parent_known (site_list : list Site.t) (parentId : pystr) :
  parentId ∈ Site.id <$> site_list ↔
  filter (fun ste => Site.id ste = parentId) site_list ≠ [].
Proof.
  rewrite list_elem_of_fmap. split.
  - intros (p & -> & Hp) Hnil.
    assert (p ∈ filter (fun ste => Site.id ste = Site.id p) site_list) as Hin
      by by apply list_elem_of_filter.
    rewrite Hnil in Hin. by apply elem_of_nil in Hin.
  - destruct (filter (fun ste => Site.id ste = parentId) site_list)
      as [|p l] eqn:Hf; [done|]. intros _.
    assert (p ∈ filter (fun ste => Site.id ste = parentId) site_list) as Hin
      by (rewrite Hf; left).
    apply list_elem_of_filter in Hin as [Hid Hp]. eauto.
Qed.

Lemma no_site_with_id (site_list : list Site.t) (parentId : pystr) :
  (∀ p, p ∈ site_list → Site.id p ≠ parentId) →
  filter (fun ste => Site.id ste = parentId) site_list = [].
Proof.
  intros Hno.
  destruct (filter (fun ste => Site.id ste = parentId) site_list)
    as [|p l] eqn:Hf; [done|].
  assert (p ∈ filter (fun ste => Site.id ste = parentId) site_list) as Hin
    by (rewrite Hf; left).
  apply list_elem_of_filter in Hin as [Hid Hp]. by destruct (Hno p Hp).
Qed.

Lemma first_site_with_id (pre post : list Site.t) (p : Site.t) (parentId : pystr) :
  Site.id p = parentId →
  (∀ x, x ∈ pre → Site.id x ≠ parentId) →
  filter (fun ste => Site.id ste = parentId) (pre ++ p :: post)
  = p :: filter (fun ste => Site.id ste = parentId) post.
Proof.
  intros Hp Hpre.
  by rewrite filter_app, (no_site_with_id pre), filter_cons_True.
Qed.

Lemma only_site_with_id (site_list : list Site.t) (p : Site.t) :
  NoDup (Site.id <$> site_list) → p ∈ site_list →
  filter (fun ste => Site.id ste = Site.id p) site_list = [p].
Proof.
  induction site_list as [|x l IH]; intros Hnd Hp.
  - by apply elem_of_nil in Hp.
  - rewrite fmap_cons in Hnd. apply NoDup_cons in Hnd as [Hx Hnd].
    apply elem_of_cons in Hp as [->|Hp].
    + rewrite filter_cons_True by done. f_equal.
      apply no_site_with_id. intros y Hy Heq. apply Hx.
      rewrite <- Heq. by apply list_elem_of_fmap_2.
    + rewrite filter_cons_False; [by apply IH|].
      intros Heq. apply Hx. rewrite Heq. by apply list_elem_of_fmap_2.
Qed.

Lemma _add_sites_edge_issued self site_list parent_name site w before :
  (_add_sites_edge self site_list (Site.id <$> site_list) parent_name site
     w before).2 = edge_calls self site_list site.
Proof.
  unfold _add_sites_edge, edge_calls.
  case_decide as Hin.
  - apply parent_known in Hin.
    destruct (filter (fun ste => Site.id ste = Site.parentId site) site_list)
      as [|p l]; [done|].
    rewrite run_bind. simpl. rewrite run_bind.
    unfold except_Exception, perform.
    by destruct (w _ _) as [e|[]].
  - destruct (filter (fun ste => Site.id ste = Site.parentId site) site_list)
      as [|p l] eqn:Hf.
    2:{ destruct Hin. apply parent_known. by rewrite Hf. }
    destruct (truthy (toplevel self)); [|done].
    rewrite run_bind. unfold except_Exception, perform.
    by destruct (w _ _) as [e|[]].
Qed.

(** What a completed [_add_sites] has issued: the top-level group if one is
    configured, a group per site, then the edge calls of each site. *)
Lemma _add_sites_issued self w before issued site_list :
  _site_list self = Some site_list →
  _add_sites self w before = (inr tt, issued) →
  issued =
    (if truthy (toplevel self) then [add_group (default [] (toplevel self))]
     else [])
    ++ (add_group ∘ Site.name <$> site_list)
    ++ concat (edge_calls self site_list <$> site_list).
Proof.
  intros Hsl. unfold _add_sites. rewrite Hsl.
  intros (sl & i0 & ia & [= <- <-] & H & ->)%run_bind_inv.
  apply run_bind_inv in H as ([] & i1 & ib & H1 & H & ->).
  apply run_bind_inv in H as ([] & i2 & ic & H2 & H & ->).
  apply run_bind_inv in H as (pn & i3 & id & H3 & [= <-] & ->).
  simpl. rewrite app_nil_r. f_equal; [|f_equal].
  - unfold when in H1. destruct (truthy (toplevel self)).
    + unfold perform in H1. by destruct (w _ _); inversion H1.
    + by inversion H1.
  - apply (for_each_issued _ (fun site => [add_group (Site.name site)]))
      in H2; [|done].
    rewrite H2. clear. induction site_list; [done|]. simpl. by f_equal.
  - apply (for_each_issued _ (edge_calls self site_list)) in H3; [done|].
    intros. apply _add_sites_edge_issued.
Qed.

Lemma answered_app (w : world) (l1 l2 : list call) :
  ∀ before,
    answered w before (l1 ++ l2)
    = answered w before l1 && answered w (before ++ l1) l2.
Proof.
  induction l1 as [|c l1 IH]; intros before.
  - by rewrite app_nil_r.
  - cbn [app answered]. destruct (w before c); [done|].
    by rewrite IH, <- app_assoc.
Qed.

(** The registration of the groups, when every call of it is answered. *)
Lemma groups_loop_answered w (l : list Site.t) :
  ∀ before,
    answered w before (add_group ∘ Site.name <$> l) = true →
    for_each l tt (fun _ site => perform (add_group (Site.name site))) w before
    = (inr tt, add_group ∘ Site.name <$> l).
Proof.
  induction l as [|x l IH]; intros before Hans; [done|].
  cbn [fmap list_fmap answered for_each] in Hans |- *. rewrite run_bind.
  change ((add_group ∘ Site.name) x) with (add_group (Site.name x)) in Hans |- *.
  unfold perform at 1.
  destruct (w before (add_group (Site.name x))) as [e|[]]; [done|].
  by rewrite (IH _ Hans).
Qed.

(** One iteration of the parent/child loop returns or raises the parser
    error, and has issued [edge_calls] in both cases; it returns when the
    inventory answers them. *)
Lemma _add_sites_edge_outcome self site_list parent_name site w before :
  ∃ r,
    _add_sites_edge self site_list (Site.id <$> site_list) parent_name site
      w before = (r, edge_calls self site_list site)
    ∧ ((∃ parent_name', r = inr parent_name')
       ∨ (∃ m, r = inl (AnsibleParserError m)))
    ∧ (answered w before (edge_calls self site_list site) = true →
       ∃ parent_name', r = inr parent_name').
Proof.
  unfold _add_sites_edge, edge_calls.
  case_decide as Hin.
  - apply parent_known in Hin.
    destruct (filter (fun ste => Site.id ste = Site.parentId site) site_list)
      as [|p l]; [done|].
    rewrite run_bind. cbn [fmap list_fmap item0 ret]. rewrite run_bind.
    unfold except_Exception, perform. cbn [answered]. rewrite app_nil_r.
    destruct (w before _) as [e|[]]; eexists; (split; [reflexivity|]);
      split; eauto; done.
  - destruct (filter (fun ste => Site.id ste = Site.parentId site) site_list)
      as [|p l] eqn:Hf.
    2:{ destruct Hin. apply parent_known. by rewrite Hf. }
    destruct (truthy (toplevel self)).
    + rewrite run_bind. unfold except_Exception, perform. cbn [answered].
      destruct (w before _) as [e|[]]; eexists; (split; [reflexivity|]);
        split; eauto; done.
    + eexists. split; [reflexivity|]. split; eauto.
Qed.

(** The iteration for a site that names itself as parent, with unique
    ids: one call, with the group of the site as parent and as child, and
    the answer of the inventory decides. *)
Lemma _add_sites_edge_self_parent self site_list parent_name site w before :
  NoDup (Site.id <$> site_list) →
  site ∈ site_list →
  Site.parentId site = Site.id site →
  _add_sites_edge self site_list (Site.id <$> site_list) parent_name site
    w before
  = (match w before (add_child (Site.name site) (Site.name site)) with
     | inl e =>
         inl (AnsibleParserError
                (adding_child_sites_failed (text_of e) (Site.name site)
                   (Site.name site)))
     | inr _ => inr (Site.name site)
     end,
     [add_child (Site.name site) (Site.name site)]).
Proof.
  intros Hnd Hin Hself. unfold _add_sites_edge. rewrite Hself.
  rewrite decide_True by by apply list_elem_of_fmap_2.
  rewrite only_site_with_id by done.
  rewrite run_bind. cbn [item0 fmap list_fmap ret]. rewrite app_nil_r, run_bind.
  unfold except_Exception, perform.
  by destruct (w before (add_child (Site.name site) (Site.name site)))
    as [e|[]].
Qed.

(** The parent/child loop over sites whose edge calls are all answered. *)
Lemma edges_loop_answered self site_list w (l : list Site.t) :
  ∀ parent_name before,
    answered w before (concat (edge_calls self site_list <$> l)) = true →
    ∃ parent_name',
      for_each l parent_name
        (_add_sites_edge self site_list (Site.id <$> site_list)) w before
      = (inr parent_name', concat (edge_calls self site_list <$> l)).
Proof.
  induction l as [|x l IH]; intros parent_name before Hans.
  - by exists parent_name.
  - cbn [fmap list_fmap concat] in Hans |- *.
    rewrite answered_app in Hans. apply andb_prop in Hans as [Hx Hl].
    destruct (_add_sites_edge_outcome self site_list parent_name x w before)
      as (r & Hrun & _ & Hok).
    destruct (Hok Hx) as [pn ->].
    destruct (IH pn _ Hl) as [pn' Hloop].
    exists pn'. cbn [for_each]. by rewrite run_bind, Hrun, Hloop.
Qed.

(** Against an inventory that refuses self edges, the parent/child loop
    over sites one of which names itself as parent raises the parser
    error: at that site, if not before it. *)
Lemma edges_loop_self_parent self site_list w (l : list Site.t) site :
  NoDup (Site.id <$> site_list) →
  site ∈ site_list →
  Site.parentId site = Site.id site →
  refuses_self_child w →
  site ∈ l →
  ∀ parent_name before,
    ∃ m issued,
      for_each l parent_name
        (_add_sites_edge self site_list (Site.id <$> site_list)) w before
      = (inl (AnsibleParserError m), issued).
Proof.
  intros Hnd Hin Hself Hw.
  induction l as [|x l IH]; intros Hl parent_name before.
  - by apply elem_of_nil in Hl.
  - cbn [for_each]. rewrite run_bind.
    destruct (_add_sites_edge_outcome self site_list parent_name x w before)
      as (r & Hrun & [[pn ->] | [m ->]] & _); rewrite Hrun; [|eauto].
    apply elem_of_cons in Hl as [<- | Hl].
    + rewrite _add_sites_edge_self_parent in Hrun by done.
      destruct (Hw before (Site.name site)) as [e He]. by rewrite He in Hrun.
    + destruct (IH Hl pn (before ++ edge_calls self site_list x))
        as (m & issued & ->). cbn [fst snd]. eauto.
Qed.

(** [_add_sites] once the groups are registered: the parent/child loop
    decides the outcome. *)
Lemma _add_sites_groups_answered self site_list w before r issued :
  _site_list self = Some site_list →
  answered w before (group_calls self site_list) = true →
  for_each site_list []
    (_add_sites_edge self site_list (Site.id <$> site_list))
    w (before ++ group_calls self site_list) = (r, issued) →
  _add_sites self w before
  = (match r with inl e => inl e | inr _ => inr tt end,
     group_calls self site_list ++ issued).
Proof.
  intros Hsl Hans Hedges. unfold group_calls in *.
  rewrite answered_app in Hans. apply andb_prop in Hans as [Htop Hgroups].
  apply groups_loop_answered in Hgroups.
  assert (when (truthy (toplevel self))
            (perform (add_group (default [] (toplevel self)))) w before
          = (inr tt,
             if truthy (toplevel self)
             then [add_group (default [] (toplevel self))] else []))
    as Hwhen.
  { destruct (truthy (toplevel self)); [|done]. cbn [when answered] in *.
    unfold perform. by destruct (w before _) as [e|[]]. }
  unfold _add_sites. rewrite Hsl.
  rewrite (run_bind_ok _ _ w before site_list []) by done.
  rewrite app_nil_r. cbn [app].
  rewrite (run_bind_ok _ _ _ _ _ _ Hwhen).
  rewrite (run_bind_ok _ _ _ _ _ _ Hgroups). cbn [fst snd].
  rewrite <- app_assoc, run_bind, Hedges.
  destruct r as [e|pn]; cbn [fst snd ret]; by rewrite ?app_nil_r, ?app_assoc.
Qed.

(** A completed [_add_sites] has completed its parent/child loop. *)
Lemma _add_sites_edges_completed self site_list w before issued :
  _site_list self = Some site_list →
  _add_sites self w before = (inr tt, issued) →
  ∃ before' parent_name issued',
    for_each site_list []
      (_add_sites_edge self site_list (Site.id <$> site_list)) w before'
    = (inr parent_name, issued').
Proof.
  intros Hsl. unfold _add_sites. rewrite Hsl.
  intros (sl & i0 & ia & [= <- <-] & H & ->)%run_bind_inv.
  apply run_bind_inv in H as ([] & i1 & ib & H1 & H & ->).
  apply run_bind_inv in H as ([] & i2 & ic & H2 & H & ->).
  apply run_bind_inv in H as (pn & i3 & id & H3 & _ & ->).
  eauto.
Qed.

Lemma scripted_no_self_child_refuses count page sites nodes :
  refuses_self_child (scripted_no_self_child count page sites nodes).
Proof.
  intros before group. eexists. unfold scripted_no_self_child.
  by rewrite decide_True.
Qed.

(** A method that returns has had each of its calls answered. *)
Lemma bind_answered {A B} (m : M A) (k : A → M B) w :
  (∀ before a issued, m w before = (inr a, issued) →
                      answered w before issued = true) →
  (∀ a before b issued, k a w before = (inr b, issued) →
                        answered w before issued = true) →
  ∀ before b issued,
    (m ≫= k) w before = (inr b, issued) → answered w before issued = true.
Proof.
  intros Hm Hk before b issued (a & i1 & i2 & H1 & H2 & ->)%run_bind_inv.
  rewrite answered_app. apply andb_true_intro. eauto.
Qed.

Lemma for_each_answered {A S} (body : S → A → M S) (l : list A) w :
  (∀ s x before s' issued, body s x w before = (inr s', issued) →
                           answered w before issued = true) →
  ∀ s before s' issued,
    for_each l s body w before = (inr s', issued) →
    answered w before issued = true.
Proof.
  intros Hbody. induction l as [|x l IH]; intros s before s' issued.
  - by intros [= _ <-].
  - cbn [for_each]. apply bind_answered; eauto.
Qed.

Lemma perform_answered (c : call) w before (a : answer c) issued :
  perform c w before = (inr a, issued) → answered w before issued = true.
Proof.
  intros [Hw ->]%run_perform_inv. cbn [answered]. by rewrite Hw.
Qed.

Lemma edge_call_answered (group child r : pystr) (handler : pystr → exn)
    w before r' issued :
  (except_Exception (perform (add_child group child)) handler;; ret r)
    w before = (inr r', issued) →
  answered w before issued = true.
Proof.
  apply bind_answered.
  - intros b [] i. unfold except_Exception, perform.
    destruct (w b _) as [e|[]] eqn:Hw; [done|].
    intros [= <-]. cbn [answered]. by rewrite Hw.
  - by intros _ b r'' i [= _ <-].
Qed.

Lemma _add_sites_edge_answered self site_list site_ids parent_name site
    w before parent_name' issued :
  _add_sites_edge self site_list site_ids parent_name site w before
  = (inr parent_name', issued) →
  answered w before issued = true.
Proof.
  unfold _add_sites_edge. case_decide.
  - intros (pn & i1 & i2 & H1 & H2 & ->)%run_bind_inv.
    destruct (Site.name <$> filter _ site_list) as [|p l]; [done|].
    injection H1 as <- <-. cbn [app].
    rewrite app_nil_r in H2. by apply edge_call_answered in H2.
  - destruct (truthy (toplevel self)); [|by intros [= _ <-]].
    apply edge_call_answered.
Qed.

Lemma _add_sites_completed_answered self w before issued :
  _add_sites self w before = (inr tt, issued) →
  answered w before issued = true.
Proof.
  unfold _add_sites. apply bind_answered.
  - intros b l i. destruct (_site_list self); [|done]. by intros [= _ <-].
  - intros site_list b [] i. apply bind_answered.
    + intros b' [] i'. destruct (truthy (toplevel self)); cbn [when].
      * apply (perform_answered (add_group (default [] (toplevel self)))).
      * by intros [= <-].
    + intros [] b' [] i'. apply bind_answered.
      * intros b'' [] i''. apply for_each_answered.
        intros [] x b3 [] i3.
        apply (perform_answered (add_group (Site.name x))).
      * intros [] b'' [] i''. apply bind_answered.
        -- intros b3 pn i3. apply for_each_answered.
           intros. by eapply _add_sites_edge_answered.
        -- by intros _ b3 [] i3 [= <-].
Qed.

(** Claim C6.  Site ids are unique and the inventory refuses to make a
    group its own child.  When [_add_sites] completes, it has registered
    the groups and then, site by site, these parent edges ([edges] lists
    them per site, in site order), each accepted by the inventory.  No
    site of the list names itself as parent.  If the parentId of a site is
    the id of another site of the list, the one edge of the site makes
    that site's group its parent.  Otherwise, the one edge of the site
    makes the top-level group its parent if a non-empty top-level name is
    configured, and the site has no edge if none is. *)
Theorem parent_is_another_known_site (self : InventoryModule) (w : world)
    (before issued : list call) (site_list : list Site.t) :
  _site_list self = Some site_list →
  NoDup (Site.id <$> site_list) →
  refuses_self_child w →
  _add_sites self w before = (inr tt, issued) →
  ∃ edges : list (list call),
    issued = group_calls self site_list ++ concat edges
    ∧ answered w before issued = true
    ∧ Forall2 (fun site site_edges =>
         Site.parentId site ≠ Site.id site
         ∧ (∀ p, p ∈ site_list → p ≠ site →
                 Site.id p = Site.parentId site →
                 site_edges = [add_child (Site.name p) (Site.name site)])
         ∧ ((∀ p, p ∈ site_list → p ≠ site →
                  Site.id p ≠ Site.parentId site) →
            ∀ top, toplevel self = Some top → top ≠ [] →
                   site_edges = [add_child top (Site.name site)])
         ∧ ((∀ p, p ∈ site_list → p ≠ site →
                  Site.id p ≠ Site.parentId site) →
            toplevel self = None ∨ toplevel self = Some [] →
            site_edges = []))
       site_list edges.
Proof.
  intros Hsl Hnd Hw Hrun. exists (edge_calls self site_list <$> site_list).
  split.
  { unfold group_calls. rewrite <- app_assoc.
    by apply (_add_sites_issued self w before). }
  split; [by apply (_add_sites_completed_answered self)|].
  apply Forall2_fmap_r, Forall_Forall2_diag, Forall_forall.
  intros site Hin.
  assert (Site.parentId site ≠ Site.id site) as Hself.
  { intros Hself.
    apply (_add_sites_edges_completed _ _ _ _ _ Hsl) in Hrun
      as (b & pn & i & Hrun).
    destruct (edges_loop_self_parent self site_list w site_list site
                Hnd Hin Hself Hw Hin [] b) as (m & i' & Hedges).
    by rewrite Hedges in Hrun. }
  assert ((∀ p, p ∈ site_list → p ≠ site → Site.id p ≠ Site.parentId site) →
          ∀ p, p ∈ site_list → Site.id p ≠ Site.parentId site) as Hother.
  { intros Hno p Hp Hid. apply (Hno p Hp); [|exact Hid].
    intros ->. by apply Hself. }
  unfold edge_calls. repeat split.
  - exact Hself.
  - intros p Hp _ Hid. rewrite <- Hid. by rewrite only_site_with_id.
  - intros Hno top Htop Hne. rewrite no_site_with_id, Htop by auto.
    by destruct top.
  - intros Hno Htop. rewrite no_site_with_id by auto.
    by destruct Htop as [-> | ->].
Qed.

(** The hierarchy example of the specification, under the top-level group
    [root]: site 2 is put under site 1, sites 1 and 3 under [root]. *)
Lemma parent_is_another_known_site_witness :
  let self := set_site_list (sample_options (Some (str "root")) 500)
                (Some sample_sites) in
  let w := scripted_no_self_child 0 (fun _ _ => []) [] [] in
  let issued :=
    [ add_group (str "root");
      add_group (str "s1"); add_group (str "s2"); add_group (str "s3");
      add_child (str "root") (str "s1"); add_child (str "s1") (str "s2");
      add_child (str "root") (str "s3") ] in
  NoDup (Site.id <$> sample_sites)
  ∧ refuses_self_child w
  ∧ _add_sites self w [] = (inr tt, issued)
  ∧ ∃ edges : list (list call),
      issued = group_calls self sample_sites ++ concat edges
      ∧ answered w [] issued = true
      ∧ Forall2 (fun site site_edges =>
           Site.parentId site ≠ Site.id site
           ∧ (∀ p, p ∈ sample_sites → p ≠ site →
                   Site.id p = Site.parentId site →
                   site_edges = [add_child (Site.name p) (Site.name site)])
           ∧ ((∀ p, p ∈ sample_sites → p ≠ site →
                    Site.id p ≠ Site.parentId site) →
              ∀ top, toplevel self = Some top → top ≠ [] →
                     site_edges = [add_child top (Site.name site)])
           ∧ ((∀ p, p ∈ sample_sites → p ≠ site →
                    Site.id p ≠ Site.parentId site) →
              toplevel self = None ∨ toplevel self = Some [] →
              site_edges = []))
         sample_sites edges.
Proof.
  intros self w issued.
  assert (NoDup (Site.id <$> sample_sites)) as Hnd by by compute_done.
  assert (refuses_self_child w) as Hw
    by apply scripted_no_self_child_refuses.
  split; [exact Hnd|]. split; [exact Hw|]. split; [reflexivity|].
  exact (parent_is_another_known_site self w [] issued sample_sites
           eq_refl Hnd Hw eq_refl).
Defined.

(** Claim C3.  Site ids are unique and the inventory refuses to make a
    group its own child.  With a site that names itself as parent in the
    list, [_add_sites] never returns: it raises, and what it raises is the
    parser error once the groups are registered.  When the inventory has
    answered the registration of the groups and the edges of the sites
    before that site, the run issues the edge that would make the site
    its own parent, the inventory refuses it, and the run ends there with
    the parser error that names the site as child and as parent. *)
Theorem self_parent_site_is_rejected (self : InventoryModule) (w : world)
    (before : list call) (site_list pre post : list Site.t) (site : Site.t) :
  _site_list self = Some site_list →
  site_list = pre ++ site :: post →
  NoDup (Site.id <$> site_list) →
  Site.parentId site = Site.id site →
  refuses_self_child w →
  (∃ x issued,
     _add_sites self w before = (inl x, issued)
     ∧ (answered w before (group_calls self site_list) = true →
        ∃ m, x = AnsibleParserError m))
  ∧ (answered w before
       (group_calls self site_list
        ++ concat (edge_calls self site_list <$> pre)) = true →
     ∃ e,
       w (before ++ group_calls self site_list
          ++ concat (edge_calls self site_list <$> pre))
         (add_child (Site.name site) (Site.name site)) = inl e
       ∧ _add_sites self w before
         = (inl (AnsibleParserError
                   (adding_child_sites_failed (text_of e) (Site.name site)
                      (Site.name site))),
            group_calls self site_list
            ++ concat (edge_calls self site_list <$> pre)
            ++ [add_child (Site.name site) (Site.name site)])).
Proof.
  intros Hsl Hlist Hnd Hself Hw.
  assert (site ∈ site_list) as Hin.
  { rewrite Hlist, elem_of_app. right. left. }
  pose proof (edges_loop_self_parent self site_list w site_list site
                Hnd Hin Hself Hw Hin) as Hloop.
  split.
  - destruct (_add_sites self w before) as [[x|[]] issued] eqn:Hrun.
    + exists x, issued. split; [done|]. intros Hans.
      destruct (Hloop [] (before ++ group_calls self site_list))
        as (m & i & Hedges).
      rewrite (_add_sites_groups_answered _ _ _ _ _ _ Hsl Hans Hedges) in Hrun.
      injection Hrun as <- _. eauto.
    + apply (_add_sites_edges_completed _ _ _ _ _ Hsl) in Hrun
        as (b & pn & i & Hrun).
      destruct (Hloop [] b) as (m & i' & Hedges). by rewrite Hedges in Hrun.
  - intros Hans. rewrite answered_app in Hans.
    apply andb_prop in Hans as [Hgroups Hpre].
    destruct (edges_loop_answered self site_list w pre []
                (before ++ group_calls self site_list) Hpre) as [pn Hedges].
    destruct (Hw (before ++ group_calls self site_list
                  ++ concat (edge_calls self site_list <$> pre))
                (Site.name site)) as [e He].
    exists e. split; [exact He|].
    erewrite _add_sites_groups_answered; [|exact Hsl|exact Hgroups|].
    2:{ rewrite Hlist at 1. rewrite for_each_app.
        rewrite (run_bind_ok _ _ _ _ _ _ Hedges). cbn [for_each].
        rewrite run_bind, _add_sites_edge_self_parent by done.
        rewrite <- app_assoc, He. reflexivity. }
    reflexivity.
Qed.

(** Two sites of the hierarchy example, then a site that names itself as
    parent, under the top-level group [root]: the groups and the edges of
    the two sites are registered, the self edge is refused, and the run
    ends with the parser error. *)
Lemma self_parent_site_is_rejected_witness :
  let site_list := tail sample_sites ++ [self_parent_site] in
  let self := set_site_list (sample_options (Some (str "root")) 500)
                (Some site_list) in
  let w := scripted_no_self_child 0 (fun _ _ => []) [] [] in
  NoDup (Site.id <$> site_list)
  ∧ refuses_self_child w
  ∧ answered w []
      [ add_group (str "root");
        add_group (str "s2"); add_group (str "s3"); add_group (str "a");
        add_child (str "a") (str "s2"); add_child (str "root") (str "s3") ]
    = true
  ∧ _add_sites self w []
    = (inl (AnsibleParserError
              (adding_child_sites_failed (str "can't add group to itself")
                 (str "a") (str "a"))),
       [ add_group (str "root");
         add_group (str "s2"); add_group (str "s3"); add_group (str "a");
         add_child (str "a") (str "s2"); add_child (str "root") (str "s3");
         add_child (str "a") (str "a") ]).
Proof.
  intros site_list self w.
  assert (NoDup (Site.id <$> site_list)) as Hnd by by compute_done.
  assert (refuses_self_child w) as Hw
    by apply scripted_no_self_child_refuses.
  split; [exact Hnd|]. split; [exact Hw|]. split; [reflexivity|].
  destruct (self_parent_site_is_rejected self w [] site_list
              (tail sample_sites) [] self_parent_site
              eq_refl eq_refl Hnd eq_refl Hw) as [_ Hrun].
  destruct (Hrun eq_refl) as (e & He & Hrejected).
  injection He as <-. exact Hrejected.
Defined.

(** ** Host Binder: [_get_member_site] and [_add_hosts] *)

Lemma _get_member_site_run self device_id (w : world) before
    (devices : list Node.t) :
  w before get_physical_topology = inr devices →
  _get_member_site self device_id w before
  = (member_site_of self devices device_id, [get_physical_topology]).
Proof.
  intros Hw. unfold _get_member_site, member_site_of.
  rewrite run_bind. unfold except_ApiError, perform. rewrite Hw.
  destruct (filter (fun dev => Node.id dev = device_id) devices)
    as [|device l]; [done|].
  cbn [item0]. rewrite run_bind. cbn [ret fst snd app].
  destruct (Node.additionalInfo device) as [info|]; [|done].
  rewrite run_bind. cbn [ret fst snd app].
  destruct (_site_list self) as [site_list|]; [|done].
  cbn [iter]. rewrite run_bind. cbn [ret fst snd app].
  by destruct (Site.name <$> _) as [|? [|? ?]].
Qed.

Lemma _get_member_site_inv self device_id w before r issued :
  _get_member_site self device_id w before = (inr r, issued) →
  ∃ devices, w before get_physical_topology = inr devices
    ∧ member_site_of self devices device_id = inr r
    ∧ issued = [get_physical_topology].
Proof.
  destruct (w before get_physical_topology) as [e|devices] eqn:Hw.
  - unfold _get_member_site. rewrite run_bind.
    unfold except_ApiError, perform. rewrite Hw. by destruct e.
  - rewrite (_get_member_site_run _ _ _ _ devices Hw).
    intros [= Hm <-]. eauto.
Qed.

(** A device id that no topology node bears: the [[0]] of line 241 raises. *)
Lemma _get_member_site_no_node self device_id (w : world) before
    (devices : list Node.t) :
  w before get_physical_topology = inr devices →
  (∀ dev, dev ∈ devices → Node.id dev ≠ device_id) →
  _get_member_site self device_id w before
  = (inl IndexError, [get_physical_topology]).
Proof.
  intros Hw Hno. rewrite (_get_member_site_run _ _ _ _ devices Hw).
  unfold member_site_of.
  destruct (filter (fun dev => Node.id dev = device_id) devices)
    as [|dev l] eqn:Hf; [done|].
  assert (dev ∈ filter (fun dev => Node.id dev = device_id) devices) as Hin
    by (rewrite Hf; left).
  apply list_elem_of_filter in Hin as [Hid Hin]. by destruct (Hno dev Hin).
Qed.

(** A node that bears the device id and a siteid that no site bears: the
    group is [ungrouped]. *)
Lemma _get_member_site_no_site self device_id (w : world) before
    (devices rest : list Node.t) (device : Node.t) (info : Node.info)
    (site_list : list Site.t) :
  w before get_physical_topology = inr devices →
  filter (fun dev => Node.id dev = device_id) devices = device :: rest →
  Node.additionalInfo device = Some info →
  _site_list self = Some site_list →
  (∀ site, site ∈ site_list → Some (Site.id site) ≠ Node.siteid info) →
  _get_member_site self device_id w before
  = (inr (Some ungrouped), [get_physical_topology]).
Proof.
  intros Hw Hf Hinfo Hsl Hno. rewrite (_get_member_site_run _ _ _ _ devices Hw).
  unfold member_site_of. rewrite Hf, Hinfo, Hsl.
  destruct (filter (fun site => Some (Site.id site) = Node.siteid info) site_list)
    as [|site l] eqn:Hs; [done|].
  assert (site ∈ filter (fun site => Some (Site.id site) = Node.siteid info)
                   site_list) as Hin by (rewrite Hs; left).
  apply list_elem_of_filter in Hin as [Hid Hin]. by destruct (Hno site Hin).
Qed.

Lemma set_network_os_inv host_name network_os w before issued :
  set_network_os host_name network_os w before = (inr tt, issued) →
  issued = hint_calls host_name network_os.
Proof. unfold set_network_os. intros H. run_inv H. done. Qed.

(** What a completed iteration of [_add_hosts] has done. *)
Lemma _add_hosts_body_inv self h w before issued :
  _add_hosts_body self h w before = (inr tt, issued) →
  ∃ devices site_name host_name hints,
    w before get_physical_topology = inr devices
    ∧ member_site_of self devices (Host.id h) = inr (Some site_name)
    ∧ w (before ++ [get_physical_topology])
        (add_host (Host.hostname h) site_name) = inr host_name
    ∧ issued = get_physical_topology :: add_host (Host.hostname h) site_name
               :: attribute_calls self h host_name site_name
               ++ hints ++ constructed_calls host_name
    ∧ hints = (if decide (Str.lower (Host.os h) ∈ ios_names)
               then hint_calls host_name (str "ios")
               else if decide (Str.lower (Host.os h) ∈ nxos_names)
               then hint_calls host_name (str "nxos")
               else []).
Proof.
  unfold _add_hosts_body.
  intros (r & i0 & ia & H0 & H & ->)%run_bind_inv.
  apply _get_member_site_inv in H0 as (devices & Hw & Hms & ->).
  destruct r as [[|c site_name]|]; [done| |done]. cbn [truthy default] in H.
  apply run_bind_inv in H as (host_name & i1 & ib & H1 & H & ->).
  apply (run_perform_inv (add_host _ _)) in H1 as [H1 ->].
  apply run_bind_inv in H as ([] & i2 & ic & H2 & H & ->).
  exists devices, (c :: site_name), host_name.
  assert (i2 = if use_dnac_mgmt_int self
               then [set_variable host_name (str "ansible_host")
                       (VStr (Host.managementIpAddress h))]
               else []) as ->.
  { unfold when in H2. destruct (use_dnac_mgmt_int self).
    - by apply (run_perform_inv (set_variable _ _ _)) in H2 as [_ ->].
    - by inversion H2. }
  do 8 (apply run_bind_inv in H as ([] & ? & ? & H' & H & ->);
        apply (run_perform_inv (set_variable _ _ _)) in H' as [_ ->]).
  apply run_bind_inv in H as ([] & hints & id & Hh & H & ->).
  run_inv H. exists hints. repeat split; try done.
  - unfold attribute_calls, constructed_calls. simpl.
    rewrite <- !app_assoc. by simpl.
  - repeat case_decide.
    + by apply set_network_os_inv in Hh.
    + by apply set_network_os_inv in Hh.
    + by inversion Hh.
Qed.

Lemma ios_nxos_disjoint (os : pystr) : os ∈ nxos_names → os ∉ ios_names.
Proof.
  unfold nxos_names, ios_names. rewrite !elem_of_cons, !elem_of_nil.
  intros [-> | [-> | []]] [H | [H | [H | []]]]; discriminate H.
Qed.

(** Claim C7.  For a host that is bound - its iteration of [_add_hosts]
    completes -: the calls issued are the topology query, [add_host], the
    base attributes, the automation hints and the derived-attribute rules,
    in that order; the hints are the IOS directive set if the lower-cased
    os is [ios], [ios-xe] or [unified ap], the NX-OS set if it is [nxos] or
    [nx-os], and there is none for any other os. *)
Theorem os_hint_assignment (self : InventoryModule) (h : Host.t)
    (w : world) (before issued : list call) :
  _add_hosts_body self h w before = (inr tt, issued) →
  ∃ site_name host_name hints,
    issued = get_physical_topology :: add_host (Host.hostname h) site_name
             :: attribute_calls self h host_name site_name
             ++ hints ++ constructed_calls host_name
    ∧ (Str.lower (Host.os h) ∈ [str "ios"; str "ios-xe"; str "unified ap"] →
       hints =
         [ set_variable host_name (str "ansible_network_os") (VStr (str "ios"));
           set_variable host_name (str "ansible_connection")
             (VStr (str "network_cli"));
           set_variable host_name (str "ansible_become") (VStr (str "yes"));
           set_variable host_name (str "ansible_become_method")
             (VStr (str "enable")) ])
    ∧ (Str.lower (Host.os h) ∈ [str "nxos"; str "nx-os"] →
       hints =
         [ set_variable host_name (str "ansible_network_os") (VStr (str "nxos"));
           set_variable host_name (str "ansible_connection")
             (VStr (str "network_cli"));
           set_variable host_name (str "ansible_become") (VStr (str "yes"));
           set_variable host_name (str "ansible_become_method")
             (VStr (str "enable")) ])
    ∧ (Str.lower (Host.os h)
         ∉ [str "ios"; str "ios-xe"; str "unified ap"; str "nxos"; str "nx-os"] →
       hints = []).
Proof.
  intros Hrun. apply _add_hosts_body_inv in Hrun
    as (devices & site_name & host_name & hints & _ & _ & _ & -> & ->).
  exists site_name, host_name. eexists. split; [reflexivity|].
  repeat split.
  - intros Hios. by rewrite decide_True.
  - intros Hnx. pose proof (ios_nxos_disjoint _ Hnx).
    by rewrite decide_False, decide_True.
  - intros Hno.
    rewrite !decide_False; [done | |]; intros Hin; apply Hno;
      unfold ios_names, nxos_names in Hin;
      rewrite !elem_of_cons in Hin; rewrite !elem_of_cons; tauto.
Qed.

(** A switch on the site [7], bound under the group of that site. *)
Lemma os_hint_assignment_witness :
  let self :=
    set_site_list (sample_options None 500)
      (Some [ {| Site.name := str "bld_hq"; Site.id := str "7";
                 Site.parentId := str "1" |} ]) in
  let w := scripted 1 (fun _ _ => [sample_switch]) []
             [sample_node (str "d1") (str "7")] in
  let h := host_dict_of sample_switch in
  let issued :=
    get_physical_topology :: add_host (str "sw-d1") (str "bld_hq")
    :: attribute_calls self h (str "sw-d1") (str "bld_hq")
    ++ hint_calls (str "sw-d1") (str "ios")
    ++ constructed_calls (str "sw-d1") in
  _add_hosts_body self h w [] = (inr tt, issued)
  ∧ ∃ site_name host_name hints,
      issued = get_physical_topology :: add_host (Host.hostname h) site_name
               :: attribute_calls self h host_name site_name
               ++ hints ++ constructed_calls host_name
      ∧ (Str.lower (Host.os h) ∈ [str "ios"; str "ios-xe"; str "unified ap"] →
         hints =
           [ set_variable host_name (str "ansible_network_os") (VStr (str "ios"));
             set_variable host_name (str "ansible_connection")
               (VStr (str "network_cli"));
             set_variable host_name (str "ansible_become") (VStr (str "yes"));
             set_variable host_name (str "ansible_become_method")
               (VStr (str "enable")) ])
      ∧ (Str.lower (Host.os h) ∈ [str "nxos"; str "nx-os"] →
         hints =
           [ set_variable host_name (str "ansible_network_os")
               (VStr (str "nxos"));
             set_variable host_name (str "ansible_connection")
               (VStr (str "network_cli"));
             set_variable host_name (str "ansible_become") (VStr (str "yes"));
             set_variable host_name (str "ansible_become_method")
               (VStr (str "enable")) ])
      ∧ (Str.lower (Host.os h)
           ∉ [str "ios"; str "ios-xe"; str "unified ap"; str "nxos";
              str "nx-os"] →
         hints = []).
Proof.
  intros self w h issued.
  assert (_add_hosts_body self h w [] = (inr tt, issued)) as Hrun
    by (vm_compute; reflexivity).
  split; [exact Hrun|].
  exact (os_hint_assignment self h w [] issued Hrun).
Defined.

Lemma _add_hosts_run_app self (pre post : list Host.t) w before issued_pre :
  _host_list self = Some (pre ++ post) →
  _add_hosts (set_host_list self (Some pre)) w before = (inr tt, issued_pre) →
  _add_hosts self w before
  = ((for_each post tt (fun _ h => _add_hosts_body self h) w
        (before ++ issued_pre)).1,
     issued_pre ++
     (for_each post tt (fun _ h => _add_hosts_body self h) w
        (before ++ issued_pre)).2).
Proof.
  intros Hhl. unfold _add_hosts. rewrite Hhl. cbn [_host_list set_host_list iter].
  rewrite !run_bind. cbn [ret app]. rewrite !app_nil_r.
  change (fun (_ : ()) (h : Host.t) =>
            _add_hosts_body (set_host_list self (Some pre)) h)
    with (fun (_ : ()) (h : Host.t) => _add_hosts_body self h).
  rewrite for_each_app, run_bind.
  destruct (for_each pre () _ w before) as [[e|[]] i]; [done|].
  by intros [= ->].
Qed.

(** Claim C10.  When the run reaches a host [h] - the hosts before it are
    bound - whose topology node carries a siteid that two or more sites
    bear as id, [_get_member_site] returns no name ([None]), and
    [_add_hosts] raises the error that names the id of [h], having issued
    nothing for [h] but the topology query. *)
Theorem duplicate_site_ids_fail_the_run (self : InventoryModule) (w : world)
    (before issued_pre : list call) (pre post : list Host.t) (h : Host.t)
    (devices : list Node.t) (device : Node.t) (info : Node.info)
    (site_list : list Site.t) :
  _site_list self = Some site_list →
  _host_list self = Some (pre ++ h :: post) →
  _add_hosts (set_host_list self (Some pre)) w before = (inr tt, issued_pre) →
  w (before ++ issued_pre) get_physical_topology = inr devices →
  head (filter (fun dev => Node.id dev = Host.id h) devices) = Some device →
  Node.additionalInfo device = Some info →
  (2 <= length (filter (fun site => Some (Site.id site) = Node.siteid info)
                  site_list))%nat →
  _get_member_site self (Host.id h) w (before ++ issued_pre)
  = (inr None, [get_physical_topology])
  ∧ _add_hosts self w before
    = (inl (AnsibleError
              (no_site_name_found_for_host (Host.id h) (Some site_list))),
       issued_pre ++ [get_physical_topology]).
Proof.
  intros Hsl Hhl Hpre Hw Hdev Hinfo Hdup.
  assert (_get_member_site self (Host.id h) w (before ++ issued_pre)
          = (inr None, [get_physical_topology])) as Hms.
  { rewrite (_get_member_site_run _ _ _ _ devices Hw). unfold member_site_of.
    destruct (filter (fun dev => Node.id dev = Host.id h) devices)
      as [|dev l]; [done|].
    injection Hdev as ->. rewrite Hinfo, Hsl.
    destruct (filter (fun site => Some (Site.id site) = Node.siteid info)
                site_list) as [|s1 [|s2 l']]; simpl in Hdup; [lia|lia|done]. }
  split; [exact Hms|].
  rewrite (_add_hosts_run_app self pre (h :: post) w before issued_pre Hhl Hpre).
  assert (_add_hosts_body self h w (before ++ issued_pre)
          = (inl (AnsibleError
                    (no_site_name_found_for_host (Host.id h) (Some site_list))),
             [get_physical_topology])) as Hbody.
  { unfold _add_hosts_body. rewrite run_bind, Hms.
    cbn [truthy raise fst snd]. by rewrite Hsl. }
  cbn [for_each]. by rewrite run_bind, Hbody.
Qed.

(** Two sites with the id [7]; the first host is bound, the second one sits
    on site [7]. *)
Lemma duplicate_site_ids_fail_the_run_witness :
  let site_list :=
    [ {| Site.name := str "hq"; Site.id := str "1"; Site.parentId := str "0" |};
      {| Site.name := str "east"; Site.id := str "7"; Site.parentId := str "1" |};
      {| Site.name := str "west"; Site.id := str "7"; Site.parentId := str "1" |} ] in
  let first := host_dict_of sample_switch in
  let h := host_dict_of (sample_device (str "d3") (str "Routers") (str "IOS")
                           (str "FGL1")) in
  let self :=
    set_host_list (set_site_list (sample_options None 500) (Some site_list))
      (Some [first; h]) in
  let w := scripted 2 (fun _ _ => []) []
             [sample_node (str "d1") (str "1"); sample_node (str "d3") (str "7")] in
  let issued_first :=
    get_physical_topology :: add_host (str "sw-d1") (str "hq")
    :: attribute_calls self first (str "sw-d1") (str "hq")
    ++ hint_calls (str "sw-d1") (str "ios")
    ++ constructed_calls (str "sw-d1") in
  _get_member_site self (str "d3") w ([] ++ issued_first)
  = (inr None, [get_physical_topology])
  ∧ _add_hosts self w []
    = (inl (AnsibleError
              (no_site_name_found_for_host (str "d3") (Some site_list))),
       issued_first ++ [get_physical_topology]).
Proof.
  intros site_list first h self w issued_first.
  refine (duplicate_site_ids_fail_the_run self w [] issued_first [first] [] h
            [sample_node (str "d1") (str "1"); sample_node (str "d3") (str "7")]
            (sample_node (str "d3") (str "7"))
            {| Node.siteid := Some (str "7") |} site_list _ _ _ _ _ _ _).
  - reflexivity.
  - reflexivity.
  - vm_compute; reflexivity.
  - reflexivity.
  - vm_compute; reflexivity.
  - reflexivity.
  - vm_compute; lia.
Defined.

(** Claim C1, at a host whose id no topology node bears (the only node is
    that of another device; the configured sites do not matter): the
    owning-site resolution raises [IndexError] at line 241, and so does
    [_add_hosts]; the host is not registered, nothing but the topology
    query is issued, and the group [ungrouped] is not resolved to. *)
Theorem unmatched_device_raises_IndexError :
  let h := host_dict_of sample_switch in
  let self :=
    set_host_list
      (set_site_list (sample_options None 500)
         (Some [ {| Site.name := str "hq"; Site.id := str "1";
                    Site.parentId := str "0" |} ]))
      (Some [h]) in
  let w := scripted 1 (fun _ _ => [sample_switch]) []
             [sample_node (str "other") (str "1")] in
  _get_member_site self (Host.id h) w [] = (inl IndexError, [get_physical_topology])
  ∧ _add_hosts self w [] = (inl IndexError, [get_physical_topology]).
Proof. by vm_compute. Qed.

(** The sibling case of claim C1 that the source does handle: a node bears
    the device id, its siteid is that of no site.  The group is
    [ungrouped], and a completed iteration has registered the host under it
    and set every base attribute. *)
Lemma unknown_site_is_ungrouped (self : InventoryModule) (h : Host.t)
    (w : world) (before issued : list call) (devices rest : list Node.t)
    (device : Node.t) (info : Node.info) (site_list : list Site.t) :
  w before get_physical_topology = inr devices →
  filter (fun dev => Node.id dev = Host.id h) devices = device :: rest →
  Node.additionalInfo device = Some info →
  _site_list self = Some site_list →
  (∀ site, site ∈ site_list → Some (Site.id site) ≠ Node.siteid info) →
  _get_member_site self (Host.id h) w before
  = (inr (Some ungrouped), [get_physical_topology])
  ∧ (_add_hosts_body self h w before = (inr tt, issued) →
     ∃ host_name hints,
       issued = get_physical_topology :: add_host (Host.hostname h) ungrouped
                :: attribute_calls self h host_name ungrouped
                ++ hints ++ constructed_calls host_name).
Proof.
  intros Hw Hf Hinfo Hsl Hno.
  pose proof (_get_member_site_no_site self (Host.id h) w before devices rest
                device info site_list Hw Hf Hinfo Hsl Hno) as Hms.
  split; [exact Hms|]. intros Hrun.
  apply _add_hosts_body_inv in Hrun
    as (devices' & site_name & host_name & hints & Hw' & Hm & _ & -> & _).
  rewrite Hw in Hw'. injection Hw' as <-.
  rewrite (_get_member_site_run _ _ _ _ devices Hw) in Hms.
  injection Hms as Hms. rewrite Hm in Hms. injection Hms as ->. eauto.
Qed.

(** ** A whole synchronization pass *)

(** Two devices, one of them an access point, one building under the
    top-level group [root]: the calls of [parse], in order. *)
Example parse_sample :
  let self := sample_options (Some (str "root")) 500 in
  let w := scripted 2 (fun _ _ => [sample_switch; sample_access_point])
             [ {| RawSite.name := str "HQ (Main)"; RawSite.id := str "7";
                  RawSite.parentId := str "1";
                  RawSite.locationType := str "building" |} ]
             [sample_node (str "d1") (str "7"); sample_node (str "d2") (str "7")] in
  let h := host_dict_of sample_switch in
  (parse self w []).2
  = [ get_device_count;
      get_device_list 500 1 None (Some [str "Switches and Hubs"; str "Routers"])
        None;
      get_site_topology;
      add_group (str "root");
      add_group (str "bld_hq__main_");
      add_child (str "root") (str "bld_hq__main_");
      get_physical_topology;
      add_host (str "sw-d1") (str "bld_hq__main_") ]
    ++ attribute_calls self h (str "sw-d1") (str "bld_hq__main_")
    ++ hint_calls (str "sw-d1") (str "ios")
    ++ constructed_calls (str "sw-d1").
Proof. by vm_compute. Qed.

(** * Further properties of the code *)

(** ** Device Collector: failures and degenerate page sizes *)

Lemma run_bind_raise {A B} (m : M A) (k : A → M B) w before e issued :
  m w before = (inl e, issued) → (m ≫= k) w before = (inl e, issued).
Proof. intros H. by rewrite run_bind, H. Qed.

Lemma seqZ_split (m : Z) (k n : nat) :
  (k <= n)%nat →
  seqZ m (Z.of_nat n)
  = seqZ m (Z.of_nat k) ++ seqZ (m + Z.of_nat k) (Z.of_nat (n - k)).
Proof.
  intros Hk. replace (Z.of_nat n) with (Z.of_nat k + Z.of_nat (n - k)) at 1 by lia.
  apply seqZ_app; lia.
Qed.

(** The page loop when the pages before page [k] are answered and the
    query of page [k] raises: the loop stops there. *)
Lemma pages_loop_fails (w : world) (page : Z → list Device.t)
    (self : InventoryModule) (before : list call) (k n : nat) (e : raised) :
  (k < n)%nat →
  (∀ j : nat, (j < k)%nat →
     w (before ++ (page_request self <$> seqZ 0 (Z.of_nat j)))
       (page_request self (Z.of_nat j)) = inr (page (Z.of_nat j))) →
  w (before ++ (page_request self <$> seqZ 0 (Z.of_nat k)))
    (page_request self (Z.of_nat k)) = inl e →
  for_each (seqZ 0 (Z.of_nat n)) self (fun self offset =>
    let start_index := offset * api_record_limit self + 1 in
    inventory_results ←
      except_ApiError
        (perform (get_device_list (api_record_limit self) start_index
                    (hostname_filter self) (device_family self)
                    (location_name self)))
        (fun e => AnsibleParserError (Getting_device_inventory_failed e));
    ret (set_inventory self (_inventory self ++ inventory_results))) w before
  = (inl (page_failure e),
     page_request self <$> seqZ 0 (Z.of_nat (S k))).
Proof.
  intros Hk Hok Hbad.
  rewrite (seqZ_split 0 k n) by lia. rewrite for_each_app, run_bind.
  rewrite (pages_loop w page k 0 self before); cycle 1.
  { intros j Hj. rewrite Z.add_0_l. by apply Hok. }
  replace (Z.of_nat (n - k)) with (Z.succ (Z.of_nat (n - k - 1))) by lia.
  rewrite seqZ_cons by lia. cbn [for_each]. rewrite !run_bind.
  rewrite Z.add_0_l.
  set (self' := set_inventory self _).
  change (get_device_list (api_record_limit self')
            (Z.of_nat k * api_record_limit self' + 1) (hostname_filter self')
            (device_family self') (location_name self'))
    with (page_request self (Z.of_nat k)).
  unfold except_ApiError, perform. rewrite Hbad.
  rewrite (seqZ_split 0 k (S k)) by lia.
  replace (S k - k)%nat with 1%nat by lia. rewrite fmap_app.
  cbn [fst snd]. rewrite Z.add_0_l. by destruct e.
Qed.

(** Property X1.  Every page before page [k] is answered and the query of page [k]
    raises [e]: [_get_inventory] raises - the parser error for an
    [ApiError], [e] itself otherwise - after the count query and the
    requests of the pages [0] to [k]; no later page is requested. *)
Theorem failed_page_aborts_collection (self : InventoryModule) (w : world)
    (before : list call) (n : Z) (k : nat) (page : Z → list Device.t)
    (e : raised) :
  0 <= n < 2 ^ 53 → 0 < api_record_limit self < 2 ^ 53 →
  Z.of_nat k < ceil_div n (api_record_limit self) →
  w before get_device_count = inr n →
  (∀ j : nat, (j < k)%nat →
     w (before ++ get_device_count
               :: (page_request self <$> seqZ 0 (Z.of_nat j)))
       (page_request self (Z.of_nat j)) = inr (page (Z.of_nat j))) →
  w (before ++ get_device_count
            :: (page_request self <$> seqZ 0 (Z.of_nat k)))
    (page_request self (Z.of_nat k)) = inl e →
  _get_inventory self w before
  = (inl (page_failure e),
     get_device_count :: (page_request self <$> seqZ 0 (Z.of_nat k + 1))).
Proof.
  intros Hn Hp Hk Hcount Hok Hbad. unfold _get_inventory.
  erewrite run_bind_ok; cycle 1.
  { apply run_except_ApiError_ok. apply (run_perform get_device_count).
    exact Hcount. }
  erewrite run_bind_ok; cycle 1.
  { unfold lift. rewrite (offset_pages_exact n _ Hn Hp). reflexivity. }
  rewrite app_nil_r.
  erewrite run_bind_raise; cycle 1.
  { rewrite (seqZ_to_nat 0 (ceil_div _ _)).
    apply (pages_loop_fails w page self _ k _ e).
    - lia.
    - intros j Hj. rewrite <- app_assoc. by apply Hok.
    - rewrite <- app_assoc. exact Hbad. }
  cbn [fst snd app]. by rewrite Nat2Z.inj_succ, <- Z.add_1_r.
Qed.

Lemma failed_page_aborts_collection_witness :
  let self := sample_options None 2 in
  let w := scripted_failing_page 5 (fun _ _ => [sample_switch]) 3
             (ApiError (str "timeout")) in
  _get_inventory self w []
  = (inl (AnsibleParserError (Getting_device_inventory_failed (str "timeout"))),
     [ get_device_count;
       get_device_list 2 1 None (Some [str "Switches and Hubs"; str "Routers"]) None;
       get_device_list 2 3 None (Some [str "Switches and Hubs"; str "Routers"]) None ]).
Proof.
  intros self w.
  refine (failed_page_aborts_collection self w [] 5 1 (fun _ => [sample_switch])
            (ApiError (str "timeout")) _ _ _ _ _ _).
  - lia.
  - simpl. lia.
  - vm_compute. reflexivity.
  - reflexivity.
  - intros j Hj. assert (j = 0%nat) as -> by lia. reflexivity.
  - reflexivity.
Defined.

(** Property X2.  A page size of zero: the division of line 149 raises after the count
    query, and no page is requested. *)
Theorem zero_page_size_raises (self : InventoryModule) (w : world)
    (before : list call) (n : Z) :
  api_record_limit self = 0 →
  w before get_device_count = inr n →
  _get_inventory self w before = (inl ZeroDivisionError, [get_device_count]).
Proof.
  intros Hp Hcount. unfold _get_inventory.
  erewrite run_bind_ok; cycle 1.
  { apply run_except_ApiError_ok. apply (run_perform get_device_count).
    exact Hcount. }
  erewrite run_bind_raise; cycle 1.
  { unfold lift, offset_pages_of, Float.true_div. rewrite Hp.
    by rewrite decide_True. }
  reflexivity.
Qed.

Lemma zero_page_size_raises_witness :
  _get_inventory (sample_options None 0)
    (scripted 3 (fun _ _ => [sample_switch]) [] []) []
  = (inl ZeroDivisionError, [get_device_count]).
Proof.
  exact (zero_page_size_raises (sample_options None 0)
           (scripted 3 (fun _ _ => [sample_switch]) [] []) [] 3
           eq_refl eq_refl).
Defined.

Lemma round_half_even_nonneg (num den : Z) :
  0 <= num → 0 < den → 0 <= Float.round_half_even num den.
Proof.
  intros Hnum Hden. unfold Float.round_half_even. cbv zeta.
  pose proof (Z.div_pos num den Hnum Hden).
  repeat case_decide; try destruct (Z.even _); lia.
Qed.

Lemma div_pos_mant_nonneg (a b : Z) :
  0 < a → 0 < b → 0 <= Float.mant (Float.div_pos a b).
Proof.
  intros Ha Hb. unfold Float.div_pos, Float.scale. cbv zeta.
  cbn [Float.mant]. case_decide; cbn [fst snd].
  - apply round_half_even_nonneg; [lia|].
    apply Z.mul_pos_pos; [lia|]. apply Z.pow_pos_nonneg; lia.
  - apply round_half_even_nonneg; [|lia].
    apply Z.mul_nonneg_nonneg; [lia|]. apply Z.pow_nonneg. lia.
Qed.

(** A quotient of a count below [2 ^ 53] by a negative page size does not
    overflow, and its ceiling is not positive. *)
Lemma offset_pages_nonpos (n p : Z) :
  0 <= n < 2 ^ 53 → p < 0 →
  ∃ pages, offset_pages_of n p = inr pages ∧ pages <= 0.
Proof.
  intros Hn Hp. unfold offset_pages_of, Float.true_div.
  rewrite decide_False by lia.
  destruct (decide (n = 0)) as [->|Hn0].
  { exists 0. by vm_compute. }
  rewrite (Z.abs_eq n), (Z.abs_neq p), (Z.sgn_pos n), (Z.sgn_neg p) by lia.
  pose proof (div_pos_mant_nonneg n (- p) ltac:(lia) ltac:(lia)) as Hm.
  pose proof (log2_quot_spec n (- p) ltac:(lia) ltac:(lia)) as [Hpos _].
  cbv zeta in Hpos.
  set (x := Float.div_pos n (- p)) in *.
  assert (Float.expo x = Z.max (Float.log2_quot n (- p) - 52) (-1074)) as He
    by reflexivity.
  assert (Float.expo x <= 0) as He0.
  { destruct (decide (Float.log2_quot n (- p) <= 52)) as [|Hbig]; [lia|].
    specialize (Hpos ltac:(lia)).
    pose proof (Z.pow_le_mono_r 2 53 (Float.log2_quot n (- p))
                  ltac:(lia) ltac:(lia)). nia. }
  assert (Float.expo x = 0 → Float.mant x = n) as Hm0.
  { intros H0. assert (Float.log2_quot n (- p) = 52) as HL by lia.
    specialize (Hpos ltac:(lia)). rewrite HL in Hpos.
    assert (- p = 1) as Hp1 by nia.
    subst x. unfold Float.div_pos, Float.scale. cbv zeta. cbn [Float.mant].
    rewrite HL, Hp1. simpl. unfold Float.round_half_even. cbv zeta.
    rewrite Z.div_1_r, Z.mod_1_r. by rewrite decide_True by lia. }
  rewrite decide_False; cycle 1.
  { intros [H0 Hover]. assert (Float.expo x = 0) as H00 by lia.
    rewrite H00, (Hm0 H00) in Hover.
    assert (2 ^ 53 < 2 ^ 1024) by (apply Z.pow_lt_mono_r; lia). lia. }
  eexists. split; [reflexivity|].
  unfold Float.ceil. cbn [Float.mant Float.expo].
  replace (1 * -1 * Float.mant x) with (- Float.mant x) by lia.
  case_decide as Hd.
  - assert (0 <= 2 ^ Float.expo x) by (apply Z.pow_nonneg; lia). nia.
  - rewrite Z.opp_involutive.
    assert (0 <= Float.mant x / 2 ^ (- Float.expo x)); [|lia].
    apply Z.div_pos; [done|]. apply Z.pow_pos_nonneg; lia.
Qed.

(** Property X3.  A negative page size: for a count [0 <= n < 2 ^ 53] nothing raises, no
    page is requested, and the inventory is left as it was. *)
Theorem negative_page_size_collects_nothing (self : InventoryModule)
    (w : world) (before : list call) (n : Z) :
  0 <= n < 2 ^ 53 → api_record_limit self < 0 →
  w before get_device_count = inr n →
  _get_inventory self w before
  = (inr (_inventory self, self), [get_device_count]).
Proof.
  intros Hn Hp Hcount.
  destruct (offset_pages_nonpos n _ Hn Hp) as (pages & Hpages & Hle).
  unfold _get_inventory.
  erewrite run_bind_ok; cycle 1.
  { apply run_except_ApiError_ok. apply (run_perform get_device_count).
    exact Hcount. }
  erewrite run_bind_ok; cycle 1.
  { unfold lift. rewrite Hpages. reflexivity. }
  assert (seqZ 0 pages = []) as ->.
  { unfold seqZ. by replace (Z.to_nat pages) with 0%nat by lia. }
  reflexivity.
Qed.

Lemma negative_page_size_collects_nothing_witness :
  _get_inventory (sample_options None (-500))
    (scripted 1200 (fun _ _ => [sample_switch]) [] []) []
  = (inr ([], sample_options None (-500)), [get_device_count]).
Proof.
  refine (negative_page_size_collects_nothing (sample_options None (-500))
            (scripted 1200 (fun _ _ => [sample_switch]) [] []) [] 1200 _ _ _).
  - lia.
  - simpl. lia.
  - reflexivity.
Defined.

(** Property X4.  Collection appends to what [self._inventory] holds: with the count
    and every page answered, the result is the previous content followed
    by the pages, and it is stored back; the list is never reset. *)
Theorem device_collection_accumulates (self : InventoryModule) (w : world)
    (before : list call) (n : Z) (page : Z → list Device.t) :
  0 <= n < 2 ^ 53 → 0 < api_record_limit self < 2 ^ 53 →
  w before get_device_count = inr n →
  (∀ j : nat, Z.of_nat j < ceil_div n (api_record_limit self) →
     w (before ++ get_device_count
               :: (page_request self <$> seqZ 0 (Z.of_nat j)))
       (page_request self (Z.of_nat j)) = inr (page (Z.of_nat j))) →
  let pages := seqZ 0 (ceil_div n (api_record_limit self)) in
  _get_inventory self w before
  = (inr (_inventory self ++ concat (page <$> pages),
          set_inventory self (_inventory self ++ concat (page <$> pages))),
     get_device_count :: (page_request self <$> pages)).
Proof.
  intros Hn Hp Hcount Hw pages.
  pose proof (offset_pages_exact n _ Hn Hp) as Hpages.
  exact (_get_inventory_run self w before n _ page Hcount Hpages Hw).
Qed.

(** An instance that already holds an access point collects two switches. *)
Lemma device_collection_accumulates_witness :
  let self := set_inventory (sample_options None 2) [sample_access_point] in
  let w := scripted 2 (fun _ _ => [sample_switch; sample_switch]) [] [] in
  _get_inventory self w []
  = (inr ([sample_access_point; sample_switch; sample_switch],
          set_inventory self
            [sample_access_point; sample_switch; sample_switch]),
     [ get_device_count;
       get_device_list 2 1 None (Some [str "Switches and Hubs"; str "Routers"])
         None ]).
Proof.
  intros self w.
  refine (device_collection_accumulates self w [] 2
            (fun _ => [sample_switch; sample_switch]) _ _ _ _).
  - lia.
  - simpl. lia.
  - reflexivity.
  - intros j Hj. reflexivity.
Defined.

(** ** What the methods never call *)

Lemma for_each_Forall {A S} (P : call → Prop) (body : S → A → M S)
    (l : list A) w :
  (∀ s x before, Forall P (body s x w before).2) →
  ∀ s before, Forall P (for_each l s body w before).2.
Proof.
  intros Hbody. induction l as [|x l IH]; intros s before.
  - simpl. constructor.
  - cbn [for_each]. rewrite run_bind. pose proof (Hbody s x before) as Hx.
    destruct (body s x w before) as [[e|s1] i1]; [done|].
    cbn [snd] in *. apply Forall_app. split; [done|]. apply IH.
Qed.

(** Property X5.  Whatever the collaborators answer, and whether it returns or raises,
    [_get_inventory] calls nothing but the two device queries; so a
    collection that raises makes [parse] raise the same exception with the
    inventory untouched. *)
Theorem collection_only_queries_devices (self : InventoryModule) (w : world)
    (before : list call) :
  Forall (fun c => is_device_query c = true) (_get_inventory self w before).2
  ∧ (∀ e, (_get_inventory self w before).1 = inl e →
       parse self w before = (inl e, (_get_inventory self w before).2)).
Proof.
  split.
  - unfold _get_inventory. rewrite run_bind.
    unfold except_ApiError at 1, perform at 1.
    destruct (w before get_device_count) as [[t|t]|n]; cbn [snd];
      [by repeat constructor..|].
    apply Forall_app. split; [by repeat constructor|].
    rewrite run_bind. unfold lift at 1.
    destruct (offset_pages_of n (api_record_limit self)) as [e|pages];
      cbn [snd]; [constructor|].
    rewrite run_bind.
    match goal with |- context [for_each ?l ?s ?b w ?h] =>
      pose proof (for_each_Forall (fun c => is_device_query c = true) b l w) as HF
    end.
    lapply HF.
    + intros HF'. specialize (HF' self ((before ++ [get_device_count]) ++ [])).
      destruct (for_each _ _ _ w _) as [[e|s1] i1]; cbn [snd] in *; [done|].
      by rewrite app_nil_r.
    + intros s x b. rewrite run_bind. unfold except_ApiError, perform.
      destruct (w b _) as [[t|t]|a]; cbn [snd]; by repeat constructor.
  - intros e He. unfold parse. rewrite run_bind.
    destruct (_get_inventory self w before) as [[e'|a] i]; [|done].
    simpl in He. by injection He as ->.
Qed.

(** ** Device Normalizer: pages, state and serial numbers *)

(** Property X6.  Normalization works record by record: the hosts of two lists of
    records laid end to end are the hosts of the first followed by those of
    the second, so there are never more hosts than records.  The result
    replaces [self._host_list], and [self._inventory] and [self._site_list]
    are left as they were. *)
Theorem normalization_is_recordwise (self : InventoryModule)
    (first second : list Device.t) :
  (_get_hosts (set_inventory self (first ++ second))).1
  = (_get_hosts (set_inventory self first)).1
    ++ (_get_hosts (set_inventory self second)).1
  ∧ (length (_get_hosts self).1 <= length (_inventory self))%nat
  ∧ _host_list (_get_hosts self).2 = Some (_get_hosts self).1
  ∧ _inventory (_get_hosts self).2 = _inventory self
  ∧ _site_list (_get_hosts self).2 = _site_list self.
Proof.
  repeat split.
  - rewrite !_get_hosts_eq. cbn [_inventory set_inventory].
    by rewrite filter_app, fmap_app.
  - rewrite _get_hosts_eq, length_fmap. apply length_filter.
Qed.

Lemma split_go_no_separator (sep s : pystr) :
  ∀ cur, ¬ Str.contains s sep → Str.split_go sep s O cur = [rev cur ++ s].
Proof.
  induction s as [|c s IH]; intros cur Hno.
  - simpl. by rewrite app_nil_r.
  - rewrite contains_cons in Hno. cbn [Str.split_go].
    destruct (Str.startswith (c :: s) sep); [tauto|].
    rewrite IH by tauto. simpl. by rewrite <- app_assoc.
Qed.

(** Property X7.  A serial number field without [', '] - a single serial, or an empty
    field - gives the one-element list of the field itself. *)
Theorem single_serial_number (host : Device.t) :
  ¬ Str.contains (Device.serialNumber host) (str ", ") →
  Host.serialNumber (host_dict_of host) = [Device.serialNumber host].
Proof.
  intros Hno. cbn [Host.serialNumber host_dict_of]. unfold Str.split.
  by rewrite split_go_no_separator.
Qed.

Lemma single_serial_number_witness :
  Host.serialNumber (host_dict_of sample_access_point) = [str "XYZ789"].
Proof.
  refine (single_serial_number sample_access_point _).
  apply find_none_iff. vm_compute. reflexivity.
Defined.

(** Property X8.  The serial numbers of every normalized host, joined with [', '], are
    the raw field of its record: the split loses nothing. *)
Theorem serial_numbers_round_trip (self : InventoryModule) :
  Forall (fun h => Str.join (str ", ") (Host.serialNumber h)
                   = Device.serialNumber (Host.host_data h))
    (_get_hosts self).1.
Proof.
  apply Forall_forall. intros h Hh. apply _get_hosts_elem in Hh as [Hd _].
  rewrite Hd at 1. cbn [Host.serialNumber host_dict_of].
  by apply join_split.
Qed.

(** ** Site Topology Builder: properties of the normalized names *)

Lemma translate_app (table : gmap N pystr) (s1 s2 : pystr) :
  Str.translate table (s1 ++ s2)
  = Str.translate table s1 ++ Str.translate table s2.
Proof. unfold Str.translate. apply bind_app. Qed.

Lemma translate_cons (table : gmap N pystr) (c : N) (s : pystr) :
  Str.translate table (c :: s)
  = default [c] (table !! c) ++ Str.translate table s.
Proof. reflexivity. Qed.

(** The table of [_get_sites], read as a function. *)
Lemma special_char_map_lookup (c : N) :
  special_char_map !! c
  = if decide (c = 228%N) then Some (str "ae")
    else if decide (c = 252%N) then Some (str "ue")
    else if decide (c = 246%N) then Some (str "oe")
    else if decide (c = 223%N) then Some (str "ss")
    else if decide (c ∈ [40%N; 41%N; 32%N; 45%N; 46%N]) then Some (str "_")
    else None.
Proof.
  unfold special_char_map.
  destruct (decide (c = 228%N)) as [->|H1]; [reflexivity|].
  destruct (decide (c = 252%N)) as [->|H2]; [reflexivity|].
  destruct (decide (c = 246%N)) as [->|H3]; [reflexivity|].
  destruct (decide (c = 223%N)) as [->|H4]; [reflexivity|].
  destruct (decide (c ∈ [40%N; 41%N; 32%N; 45%N; 46%N])) as [H5|H5].
  - repeat (apply elem_of_cons in H5 as [-> | H5]; [reflexivity|]).
    by apply elem_of_nil in H5.
  - apply not_elem_of_list_to_map_1. cbn [fmap list_fmap fst].
    rewrite !not_elem_of_cons in H5. rewrite !not_elem_of_cons.
    repeat split; try tauto; apply not_elem_of_nil.
Qed.

Lemma lower_char_group_safe (c : N) :
  c ∉ [32%N; 40%N; 41%N; 45%N; 46%N] → group_safe (Str.lower_char c).
Proof.
  intros Hc. unfold group_safe, Str.lower_char.
  rewrite !not_elem_of_cons in *.
  repeat case_decide; repeat split; try lia; by apply not_elem_of_nil.
Qed.

#[local] Ltac ascii_range :=
  match goal with
  | |- Forall _ ?t =>
      let v := eval vm_compute in t in
      change t with v;
      repeat (apply Forall_cons; split; [lia|]); by apply Forall_nil
  end.

Lemma lower_char_latin1 (c : N) : (c < 256)%N → (Str.lower_char c < 256)%N.
Proof. intros Hc. unfold Str.lower_char. repeat case_decide; lia. Qed.

(** Property X9.  Whatever the location type: the normalized name of a site whose raw
    name lies within Latin-1 lies within Latin-1 too, and has no space,
    parenthesis, hyphen or period and no upper-case ASCII letter. *)
Theorem normalized_name_is_group_safe (site : RawSite.t) :
  Str.latin1 (RawSite.name site) →
  Str.latin1 (Site.name (site_dict_of site))
  ∧ Forall group_safe (Site.name (site_dict_of site)).
Proof.
  intros Hlatin. apply Forall_and.
  assert (∀ x : N, (97 <= x <= 122 ∨ x = 95)%N →
            (x < 256)%N ∧ group_safe x) as Hascii.
  { intros x Hx. split; [lia|]. split; [|lia]. rewrite !not_elem_of_cons.
    repeat split; try lia. apply not_elem_of_nil. }
  assert (∀ t : pystr, Forall (fun x => (97 <= x <= 122 ∨ x = 95)%N) t →
            Forall (fun x => (Str.lower_char x < 256)%N
                             ∧ group_safe (Str.lower_char x)) t) as Hsafe.
  { intros t Ht. eapply Forall_impl; [exact Ht|].
    intros x Hx. simpl in Hx. split; [apply lower_char_latin1; lia|].
    apply lower_char_group_safe.
    rewrite !not_elem_of_cons.
    repeat split; try lia. apply not_elem_of_nil. }
  assert (Forall (fun x => (x < 256)%N ∧ group_safe x)
            (Str.lower (Str.translate special_char_map (RawSite.name site))))
    as Hname.
  { unfold Str.lower. apply Forall_fmap. unfold Str.latin1 in Hlatin.
    induction Hlatin as [|c s Hc Hs IH]; [constructor|].
    rewrite translate_cons. apply Forall_app. split; [|exact IH].
    rewrite special_char_map_lookup.
    destruct (decide (c = 228%N)); [apply Hsafe; ascii_range|].
    destruct (decide (c = 252%N)); [apply Hsafe; ascii_range|].
    destruct (decide (c = 246%N)); [apply Hsafe; ascii_range|].
    destruct (decide (c = 223%N)); [apply Hsafe; ascii_range|].
    destruct (decide (c ∈ [40%N; 41%N; 32%N; 45%N; 46%N])) as [|Hnot];
      [apply Hsafe; ascii_range|].
    cbn [default]. apply Forall_cons. split; [|by apply Forall_nil].
    split; [by apply lower_char_latin1|]. apply lower_char_group_safe.
    rewrite !not_elem_of_cons in Hnot.
    rewrite !not_elem_of_cons. repeat split; try tauto; apply not_elem_of_nil. }
  unfold site_dict_of. case_decide; cbn [Site.name]; [|exact Hname].
  apply Forall_app. split; [|exact Hname].
  apply (Forall_impl (fun x => (97 <= x <= 122 ∨ x = 95)%N)); [|exact Hascii].
  ascii_range.
Qed.

(** The building ["München (Süd)"]: the raw name lies within Latin-1. *)
Lemma normalized_name_is_group_safe_witness :
  let site := {| RawSite.name := Muenchen_Sued; RawSite.id := str "7";
                 RawSite.parentId := str "1";
                 RawSite.locationType := str "building" |} in
  Str.latin1 (RawSite.name site)
  ∧ Site.name (site_dict_of site) = str "bld_muenchen__sued_"
  ∧ Str.latin1 (Site.name (site_dict_of site))
  ∧ Forall group_safe (Site.name (site_dict_of site)).
Proof.
  intros site.
  assert (Str.latin1 (RawSite.name site)) as Hlatin.
  { unfold Str.latin1. ascii_range. }
  split; [exact Hlatin|]. split; [reflexivity|].
  exact (normalized_name_is_group_safe site Hlatin).
Defined.

(** Property X10.  The table folds the lower-case umlauts only: an upper-case [Ä], [Ö] or
    [Ü] of the raw name is not transliterated but lower-cased, so the
    normalized name carries [ä], [ö] or [ü]. *)
Theorem upper_case_umlauts_are_not_folded (site : RawSite.t) (c : N) :
  c ∈ [196%N; 214%N; 220%N] →
  c ∈ RawSite.name site →
  (c + 32)%N ∈ Site.name (site_dict_of site).
Proof.
  intros Hc Hin.
  assert ((c + 32)%N
          ∈ Str.lower (Str.translate special_char_map (RawSite.name site)))
    as Hname.
  { apply list_elem_of_split in Hin as (pre & post & ->).
    rewrite translate_app, translate_cons. unfold Str.lower.
    rewrite !fmap_app, !elem_of_app. right. left.
    repeat (apply elem_of_cons in Hc as [-> | Hc]; [by vm_compute; left|]).
    by apply elem_of_nil in Hc. }
  unfold site_dict_of. case_decide; cbn [Site.name]; [|exact Hname].
  apply elem_of_app. by right.
Qed.

Lemma upper_case_umlauts_are_not_folded_witness :
  228%N ∈ Site.name
            (site_dict_of
               {| RawSite.name := [196%N] ++ str "rzte-Haus";
                  RawSite.id := str "9"; RawSite.parentId := str "1";
                  RawSite.locationType := str "building" |}).
Proof.
  refine (upper_case_umlauts_are_not_folded
            {| RawSite.name := [196%N] ++ str "rzte-Haus";
               RawSite.id := str "9"; RawSite.parentId := str "1";
               RawSite.locationType := str "building" |} 196%N _ _).
  - vm_compute. left.
  - vm_compute. left.
Defined.

(** Property X11.  With the site query answered, [_get_sites] returns one normalized site
    per raw site, in the same order, with the ids and parent ids as they
    came; the list replaces [self._site_list], and the inventory of the
    instance is left as it was. *)
Theorem site_ids_are_carried_through (self : InventoryModule) (w : world)
    (before : list call) (sites : list RawSite.t) :
  w before get_site_topology = inr sites →
  ∃ site_list self',
    _get_sites self w before = (inr (site_list, self'), [get_site_topology])
    ∧ Site.id <$> site_list = RawSite.id <$> sites
    ∧ Site.parentId <$> site_list = RawSite.parentId <$> sites
    ∧ _site_list self' = Some site_list
    ∧ _inventory self' = _inventory self.
Proof.
  intros Hw. eexists _, _. split; [by apply _get_sites_run|].
  repeat split; rewrite <- list_fmap_compose; apply list_fmap_ext;
    intros i site _; unfold site_dict_of; simpl; by case_decide.
Qed.

Lemma site_ids_are_carried_through_witness :
  let sites :=
    [ {| RawSite.name := str "HQ"; RawSite.id := str "7";
         RawSite.parentId := str "1"; RawSite.locationType := str "building" |};
      {| RawSite.name := str "Floor 1"; RawSite.id := str "8";
         RawSite.parentId := str "7"; RawSite.locationType := str "floor" |} ] in
  ∃ site_list self',
    _get_sites (sample_options None 500)
      (scripted 0 (fun _ _ => []) sites []) []
    = (inr (site_list, self'), [get_site_topology])
    ∧ Site.id <$> site_list = RawSite.id <$> sites
    ∧ Site.parentId <$> site_list = RawSite.parentId <$> sites
    ∧ _site_list self' = Some site_list
    ∧ _inventory self' = _inventory (sample_options None 500).
Proof.
  intros sites.
  exact (site_ids_are_carried_through (sample_options None 500)
           (scripted 0 (fun _ _ => []) sites []) [] sites eq_refl).
Defined.

(** ** Host Binder: owning-site resolution *)

Lemma only_site_with_siteid (site_list : list Site.t) (site : Site.t) :
  NoDup (Site.id <$> site_list) → site ∈ site_list →
  filter (fun ste => Some (Site.id ste) = Some (Site.id site)) site_list
  = [site].
Proof.
  intros Hnd Hin. rewrite <- (only_site_with_id site_list site Hnd Hin).
  apply list_filter_iff. intros x. split; [by intros [= ->] | by intros ->].
Qed.

Lemma _get_member_site_one_site (self : InventoryModule)
    (device_id : pystr) (w : world) (before : list call)
    (devices rest : list Node.t) (device : Node.t)
    (site_list : list Site.t) (site : Site.t) :
  w before get_physical_topology = inr devices →
  filter (fun dev => Node.id dev = device_id) devices = device :: rest →
  Node.additionalInfo device = Some {| Node.siteid := Some (Site.id site) |} →
  _site_list self = Some site_list →
  NoDup (Site.id <$> site_list) →
  site ∈ site_list →
  _get_member_site self device_id w before
  = (inr (Some (Site.name site)), [get_physical_topology]).
Proof.
  intros Hw Hf Hinfo Hsl Hnd Hin.
  rewrite (_get_member_site_run _ _ _ _ devices Hw). unfold member_site_of.
  rewrite Hf, Hinfo, Hsl. cbn [Node.siteid].
  by rewrite only_site_with_siteid.
Qed.

(** Property X12.  The regular case: the first topology node that bears the device id
    names a site id, site ids are unique and a site bears that id.  The
    owning site is that site, whatever the other nodes and sites are. *)
Theorem member_site_is_the_site_of_the_node (self : InventoryModule)
    (device_id : pystr) (w : world) (before : list call)
    (devices rest : list Node.t) (device : Node.t)
    (site_list : list Site.t) (site : Site.t) :
  w before get_physical_topology = inr devices →
  filter (fun dev => Node.id dev = device_id) devices = device :: rest →
  Node.additionalInfo device = Some {| Node.siteid := Some (Site.id site) |} →
  _site_list self = Some site_list →
  NoDup (Site.id <$> site_list) →
  site ∈ site_list →
  _get_member_site self device_id w before
  = (inr (Some (Site.name site)), [get_physical_topology]).
Proof. apply _get_member_site_one_site. Qed.

Lemma sample_sites_unique_ids : NoDup (Site.id <$> sample_sites).
Proof. by compute_done. Qed.

Lemma member_site_is_the_site_of_the_node_witness :
  _get_member_site (set_site_list (sample_options None 500) (Some sample_sites))
    (str "d1")
    (scripted 1 (fun _ _ => []) []
       [ sample_node (str "d0") (str "3"); sample_node (str "d1") (str "2");
         sample_node (str "d1") (str "3") ]) []
  = (inr (Some (str "s2")), [get_physical_topology]).
Proof.
  refine (member_site_is_the_site_of_the_node
            (set_site_list (sample_options None 500) (Some sample_sites))
            (str "d1") _ []
            [ sample_node (str "d0") (str "3"); sample_node (str "d1") (str "2");
              sample_node (str "d1") (str "3") ]
            [sample_node (str "d1") (str "3")] (sample_node (str "d1") (str "2"))
            sample_sites
            {| Site.name := str "s2"; Site.id := str "2";
               Site.parentId := str "1" |} _ _ _ _ _ _).
  - reflexivity.
  - vm_compute. reflexivity.
  - reflexivity.
  - reflexivity.
  - exact sample_sites_unique_ids.
  - vm_compute. right. left.
Defined.

(** Property X13.  A topology node without ['additionalInfo']: [.get('siteid')] is called
    on [None], and the [AttributeError] leaves [_get_member_site] and the
    iteration of [_add_hosts] as it is, before anything is registered for
    the host. *)
Theorem node_without_additionalInfo_raises (self : InventoryModule)
    (h : Host.t) (w : world) (before : list call)
    (devices rest : list Node.t) (device : Node.t) :
  w before get_physical_topology = inr devices →
  filter (fun dev => Node.id dev = Host.id h) devices = device :: rest →
  Node.additionalInfo device = None →
  _get_member_site self (Host.id h) w before
  = (inl AttributeError, [get_physical_topology])
  ∧ _add_hosts_body self h w before
    = (inl AttributeError, [get_physical_topology]).
Proof.
  intros Hw Hf Hinfo.
  assert (_get_member_site self (Host.id h) w before
          = (inl AttributeError, [get_physical_topology])) as Hms.
  { rewrite (_get_member_site_run _ _ _ _ devices Hw). unfold member_site_of.
    by rewrite Hf, Hinfo. }
  split; [exact Hms|]. unfold _add_hosts_body. by rewrite run_bind, Hms.
Qed.

Lemma node_without_additionalInfo_raises_witness :
  let h := host_dict_of sample_switch in
  let self := set_site_list (sample_options None 500) (Some sample_sites) in
  let w := scripted 1 (fun _ _ => []) []
             [ {| Node.id := str "d1"; Node.additionalInfo := None |} ] in
  _get_member_site self (Host.id h) w []
  = (inl AttributeError, [get_physical_topology])
  ∧ _add_hosts_body self h w [] = (inl AttributeError, [get_physical_topology]).
Proof.
  intros h self w.
  exact (node_without_additionalInfo_raises self h w []
           [ {| Node.id := str "d1"; Node.additionalInfo := None |} ] []
           {| Node.id := str "d1"; Node.additionalInfo := None |}
           eq_refl eq_refl eq_refl).
Defined.

(** Property X14.  A topology node whose ['additionalInfo'] has no ['siteid']: the site
    id is [None], which no site bears, and the group is [ungrouped]
    whatever the sites are. *)
Theorem node_without_siteid_is_ungrouped (self : InventoryModule)
    (device_id : pystr) (w : world) (before : list call)
    (devices rest : list Node.t) (device : Node.t) (site_list : list Site.t) :
  w before get_physical_topology = inr devices →
  filter (fun dev => Node.id dev = device_id) devices = device :: rest →
  Node.additionalInfo device = Some {| Node.siteid := None |} →
  _site_list self = Some site_list →
  _get_member_site self device_id w before
  = (inr (Some ungrouped), [get_physical_topology]).
Proof.
  intros Hw Hf Hinfo Hsl.
  by apply (_get_member_site_no_site self device_id w before devices rest device
              {| Node.siteid := None |} site_list).
Qed.

Lemma node_without_siteid_is_ungrouped_witness :
  _get_member_site (set_site_list (sample_options None 500) (Some sample_sites))
    (str "d1")
    (scripted 1 (fun _ _ => []) []
       [ {| Node.id := str "d1";
            Node.additionalInfo := Some {| Node.siteid := None |} |} ]) []
  = (inr (Some (str "ungrouped")), [get_physical_topology]).
Proof.
  exact (node_without_siteid_is_ungrouped
           (set_site_list (sample_options None 500) (Some sample_sites))
           (str "d1") _ []
           [ {| Node.id := str "d1";
                Node.additionalInfo := Some {| Node.siteid := None |} |} ] []
           {| Node.id := str "d1";
              Node.additionalInfo := Some {| Node.siteid := None |} |}
           sample_sites eq_refl eq_refl eq_refl eq_refl).
Defined.

(** Property X15.  A site with an empty normalized name: a host on it resolves to the
    empty name, which [if site_name:] takes for no name at all; binding
    raises the error that names the host, and the host is not registered
    although its site is known. *)
Theorem empty_site_name_fails_binding (self : InventoryModule) (h : Host.t)
    (w : world) (before : list call) (devices rest : list Node.t)
    (device : Node.t) (site_list : list Site.t) (site : Site.t) :
  w before get_physical_topology = inr devices →
  filter (fun dev => Node.id dev = Host.id h) devices = device :: rest →
  Node.additionalInfo device = Some {| Node.siteid := Some (Site.id site) |} →
  _site_list self = Some site_list →
  NoDup (Site.id <$> site_list) →
  site ∈ site_list →
  Site.name site = [] →
  _add_hosts_body self h w before
  = (inl (AnsibleError
            (no_site_name_found_for_host (Host.id h) (Some site_list))),
     [get_physical_topology]).
Proof.
  intros Hw Hf Hinfo Hsl Hnd Hin Hname. unfold _add_hosts_body.
  rewrite run_bind.
  rewrite (_get_member_site_one_site self (Host.id h) w before
             devices rest device site_list site Hw Hf Hinfo Hsl Hnd Hin).
  rewrite Hname. cbn [truthy raise fst snd]. by rewrite Hsl.
Qed.

(** A floor with an empty name, and a switch on it. *)
Lemma empty_site_name_fails_binding_witness :
  let nameless :=
    {| Site.name := []; Site.id := str "5"; Site.parentId := str "1" |} in
  let h := host_dict_of sample_switch in
  _add_hosts_body (set_site_list (sample_options None 500) (Some [nameless])) h
    (scripted 1 (fun _ _ => []) [] [sample_node (str "d1") (str "5")]) []
  = (inl (AnsibleError
            (no_site_name_found_for_host (str "d1") (Some [nameless]))),
     [get_physical_topology]).
Proof.
  intros nameless h.
  refine (empty_site_name_fails_binding
            (set_site_list (sample_options None 500) (Some [nameless])) h _ []
            [sample_node (str "d1") (str "5")] []
            (sample_node (str "d1") (str "5")) [nameless] nameless
            _ _ _ _ _ _ _).
  - reflexivity.
  - vm_compute. reflexivity.
  - reflexivity.
  - reflexivity.
  - apply NoDup_singleton.
  - apply list_elem_of_singleton. reflexivity.
  - reflexivity.
Defined.

(** ** Host Binder: what a completed binding has issued *)

Lemma for_each_unit_inv {A} (body : A → M unit) (l : list A) w :
  ∀ before issued,
    for_each l tt (fun _ x => body x) w before = (inr tt, issued) →
    ∃ traces,
      issued = concat traces
      ∧ Forall2 (fun x trace => ∃ b, body x w b = (inr tt, trace)) l traces.
Proof.
  induction l as [|x l IH]; intros before issued.
  - intros [= <-]. exists []. split; [done|constructor].
  - cbn [for_each]. intros ([] & i1 & i2 & H1 & H2 & ->)%run_bind_inv.
    apply IH in H2 as (traces & -> & HF). exists (i1 :: traces).
    split; [done|]. constructor; eauto.
Qed.

Lemma host_trace_counts (self : InventoryModule) (h : Host.t)
    (host_name site_name : pystr) (hints : list call) :
  hints = [] ∨ (∃ os, hints = hint_calls host_name os) →
  let trace :=
    get_physical_topology :: add_host (Host.hostname h) site_name
    :: attribute_calls self h host_name site_name
    ++ hints ++ constructed_calls host_name in
  omap host_of trace = [Host.hostname h]
  ∧ List.filter is_topology_query trace = [get_physical_topology]
  ∧ Forall (fun c => is_group_call c = false ∧ is_device_query c = false) trace.
Proof.
  intros Hhints trace. unfold trace, attribute_calls.
  destruct Hhints as [-> | [os ->]]; destruct (use_dnac_mgmt_int self);
    (split; [reflexivity|]); (split; [reflexivity|]);
    repeat (apply Forall_cons; split; [done|]); by apply Forall_nil.
Qed.

Lemma _add_hosts_body_trace self h w before issued :
  _add_hosts_body self h w before = (inr tt, issued) →
  omap host_of issued = [Host.hostname h]
  ∧ List.filter is_topology_query issued = [get_physical_topology]
  ∧ Forall (fun c => is_group_call c = false ∧ is_device_query c = false) issued.
Proof.
  intros Hrun. apply _add_hosts_body_inv in Hrun
    as (devices & site_name & host_name & hints & _ & _ & _ & -> & ->).
  apply host_trace_counts. repeat case_decide; eauto.
Qed.

Lemma _add_hosts_trace self w before issued (host_list : list Host.t) :
  _host_list self = Some host_list →
  _add_hosts self w before = (inr tt, issued) →
  omap host_of issued = Host.hostname <$> host_list
  ∧ length (List.filter is_topology_query issued) = length host_list
  ∧ Forall (fun c => is_group_call c = false ∧ is_device_query c = false) issued.
Proof.
  intros Hhl. unfold _add_hosts. rewrite Hhl. cbn [iter].
  rewrite run_bind. cbn [ret fst snd app]. rewrite app_nil_r.
  destruct (for_each host_list () _ w before) as [r i] eqn:Hloop.
  cbn [fst snd]. intros [= -> ->].
  apply (for_each_unit_inv (_add_hosts_body self)) in Hloop
    as (traces & -> & HF).
  clear Hhl. induction HF as [|h trace hosts traces [b Hb] HF IH].
  - repeat split. constructor.
  - apply _add_hosts_body_trace in Hb as (Hh & Ht & Hg).
    destruct IH as (IHh & IHt & IHg). cbn [concat fmap list_fmap].
    rewrite omap_app, List.filter_app, length_app, Hh, Ht, IHh, IHt.
    repeat split. by apply Forall_app.
Qed.

(** Property X16.  A completed [_add_hosts] has registered every host of
    [self._host_list] once, in list order, and has asked for the whole
    physical topology once per host; it has touched no group and asked for
    no device. *)
Theorem one_topology_query_per_host (self : InventoryModule) (w : world)
    (before issued : list call) (host_list : list Host.t) :
  _host_list self = Some host_list →
  _add_hosts self w before = (inr tt, issued) →
  omap host_of issued = Host.hostname <$> host_list
  ∧ length (List.filter is_topology_query issued) = length host_list
  ∧ Forall (fun c => is_group_call c = false ∧ is_device_query c = false) issued.
Proof. apply _add_hosts_trace. Qed.

Lemma one_topology_query_per_host_witness :
  let h1 := host_dict_of sample_switch in
  let h2 := host_dict_of (sample_device (str "d3") (str "Routers") (str "NX-OS")
                            (str "FGL1")) in
  let self :=
    set_host_list (set_site_list (sample_options None 500) (Some sample_sites))
      (Some [h1; h2]) in
  let w := scripted 2 (fun _ _ => []) []
             [sample_node (str "d1") (str "1"); sample_node (str "d3") (str "9")] in
  let issued := (_add_hosts self w []).2 in
  omap host_of issued = [str "sw-d1"; str "sw-d3"]
  ∧ length (List.filter is_topology_query issued) = 2%nat
  ∧ Forall (fun c => is_group_call c = false ∧ is_device_query c = false) issued.
Proof.
  intros h1 h2 self w issued.
  refine (one_topology_query_per_host self w [] issued [h1; h2] _ _).
  - reflexivity.
  - vm_compute. reflexivity.
Defined.

(** Property X17.  The connection address: a bound host gets the variable [ansible_host],
    with its management address, when [use_dnac_mgmt_int] is on; when it
    is off, no call sets a variable of that name. *)
Theorem ansible_host_follows_the_option (self : InventoryModule) (h : Host.t)
    (w : world) (before issued : list call) :
  _add_hosts_body self h w before = (inr tt, issued) →
  (use_dnac_mgmt_int self = true →
   ∃ host_name,
     set_variable host_name (str "ansible_host")
       (VStr (Host.managementIpAddress h)) ∈ issued)
  ∧ (use_dnac_mgmt_int self = false →
     ∀ host_name v,
       set_variable host_name (str "ansible_host") v ∉ issued).
Proof.
  intros Hrun. apply _add_hosts_body_inv in Hrun
    as (devices & site_name & host_name & hints & _ & _ & _ & -> & Hhints).
  unfold attribute_calls. split; intros Huse; rewrite Huse.
  - exists host_name. do 2 right. by left.
  - intros hn v Hin.
    assert (hints = [] ∨ ∃ os, hints = hint_calls host_name os) as [-> | [os ->]]
      by (rewrite Hhints; repeat case_decide; eauto);
      cbn [app hint_calls constructed_calls] in Hin;
      repeat (apply elem_of_cons in Hin as [Hin|Hin]; [discriminate Hin|]);
      by apply elem_of_nil in Hin.
Qed.

Lemma ansible_host_follows_the_option_witness :
  let h := host_dict_of sample_switch in
  let self := set_site_list (sample_options None 500) (Some sample_sites) in
  let w := scripted 1 (fun _ _ => []) [] [sample_node (str "d1") (str "1")] in
  let issued := (_add_hosts_body self h w []).2 in
  (use_dnac_mgmt_int self = true →
   ∃ host_name,
     set_variable host_name (str "ansible_host") (VStr (str "10.0.0.1"))
     ∈ issued)
  ∧ (use_dnac_mgmt_int self = false →
     ∀ host_name v,
       set_variable host_name (str "ansible_host") v ∉ issued).
Proof.
  intros h self w issued.
  refine (ansible_host_follows_the_option self h w [] issued _).
  vm_compute. reflexivity.
Defined.

(** ** Hierarchy Materializer: order, coverage and failures *)




Lemma edge_children (self : InventoryModule) (site_list l : list Site.t) :
  truthy (toplevel self) = true →
  omap child_of (concat (edge_calls self site_list <$> l)) = Site.name <$> l.
Proof.
  intros Htop. induction l as [|site l IH]; [done|].
  cbn [fmap list_fmap concat]. rewrite omap_app, IH. unfold edge_calls.
  rewrite Htop.
  by destruct (filter (fun ste => Site.id ste = Site.parentId site) site_list).
Qed.

(** Property X19.  With a non-empty top-level group configured, a completed [_add_sites]
    has given every site exactly one parent: the children of the edges it
    registered are the sites, one edge each, in list order. *)
Theorem every_site_gets_one_parent (self : InventoryModule) (w : world)
    (before issued : list call) (site_list : list Site.t) :
  _site_list self = Some site_list →
  truthy (toplevel self) = true →
  _add_sites self w before = (inr tt, issued) →
  omap child_of issued = Site.name <$> site_list.
Proof.
  intros Hsl Htop Hrun.
  rewrite (_add_sites_issued self w before issued site_list Hsl Hrun).
  rewrite Htop, !omap_app, (edge_children self site_list site_list Htop).
  cbn [omap list_omap child_of app].
  assert (omap child_of (add_group ∘ Site.name <$> site_list) = []) as ->;
    [|done].
  clear. by induction site_list.
Qed.

Lemma every_site_gets_one_parent_witness :
  let self := set_site_list (sample_options (Some (str "root")) 500)
                (Some sample_sites) in
  omap child_of (_add_sites self (scripted 0 (fun _ _ => []) [] []) []).2
  = [str "s1"; str "s2"; str "s3"].
Proof.
  intros self.
  refine (every_site_gets_one_parent self (scripted 0 (fun _ _ => []) [] []) []
            _ sample_sites _ _ _).
  - reflexivity.
  - reflexivity.
  - vm_compute. reflexivity.
Defined.

Lemma _add_sites_only_groups (self : InventoryModule)
    (w : world) (before : list call) :
  Forall (fun c => is_group_call c = true) (_add_sites self w before).2.
Proof.
  unfold _add_sites. destruct (_site_list self) as [site_list|];
    [|by constructor].
  cbn [iter]. rewrite run_bind. cbn [ret fst snd app].
  rewrite run_bind.
  assert (Forall (fun c => is_group_call c = true)
            (when (truthy (toplevel self))
               (perform (add_group (default [] (toplevel self))))
               w (before ++ [])).2) as Hwhen.
  { unfold when. destruct (truthy (toplevel self)); [|constructor].
    by repeat constructor. }
  destruct (when _ _ w (before ++ [])) as [[e|[]] i1]; [done|].
  cbn [snd] in Hwhen |- *. apply Forall_app. split; [done|].
  rewrite run_bind.
  pose proof (for_each_Forall (fun c => is_group_call c = true)
                (fun (_ : ()) site => perform (add_group (Site.name site)))
                site_list w) as Hgroups.
  lapply Hgroups; [clear Hgroups; intros Hgroups
                  | intros; by repeat constructor].
  specialize (Hgroups tt ((before ++ []) ++ i1)).
  destruct (for_each site_list () _ w ((before ++ []) ++ i1))
    as [[e|[]] i2]; [done|].
  cbn [snd] in Hgroups |- *. apply Forall_app. split; [done|].
  rewrite run_bind.
  pose proof (for_each_Forall (fun c => is_group_call c = true)
                (_add_sites_edge self site_list (Site.id <$> site_list))
                site_list w) as Hedges.
  lapply Hedges; [clear Hedges; intros Hedges|].
  - specialize (Hedges [] (((before ++ []) ++ i1) ++ i2)).
    destruct (for_each site_list [] _ w _) as [[e|pn] i3]; [done|].
    cbn [snd ret] in Hedges |- *. by rewrite app_nil_r.
  - intros pn site b. rewrite _add_sites_edge_issued.
    apply Forall_forall. intros c Hc. unfold edge_calls in Hc.
    destruct (filter _ site_list); [destruct (truthy _)|];
      try (apply list_elem_of_singleton in Hc as ->; done).
    by apply elem_of_nil in Hc.
Qed.

(** Property X20.  Whatever the collaborators answer, and whether it returns or raises,
    [_add_sites] calls nothing but [add_group] and [add_child]: it never
    queries the remote API and never registers a host. *)
Theorem materialization_only_touches_groups (self : InventoryModule)
    (w : world) (before : list call) :
  Forall (fun c => is_group_call c = true) (_add_sites self w before).2.
Proof. apply _add_sites_only_groups. Qed.

Lemma for_each_raise_inv {A S} (body : S → A → M S) (l : list A) w :
  ∀ s before e issued,
    for_each l s body w before = (inl e, issued) →
    ∃ l1 x l2 s1 issued1 issued2,
      l = l1 ++ x :: l2
      ∧ for_each l1 s body w before = (inr s1, issued1)
      ∧ body s1 x w (before ++ issued1) = (inl e, issued2)
      ∧ issued = issued1 ++ issued2.
Proof.
  induction l as [|x l IH]; intros s before e issued; [done|].
  cbn [for_each]. rewrite run_bind.
  destruct (body s x w before) as [[e'|s1] i1] eqn:Hx.
  - intros [= -> ->]. exists [], x, l, s, [], issued.
    rewrite app_nil_r. by repeat split.
  - destruct (for_each l s1 body w (before ++ i1)) as [r i2] eqn:Hl.
    cbn [fst snd]. intros [= -> <-].
    apply IH in Hl as (l1 & y & l2 & s2 & j1 & j2 & -> & Hl1 & Hy & ->).
    exists (x :: l1), y, l2, s2, (i1 ++ j1), j2. repeat split.
    + cbn [app for_each]. by rewrite run_bind, Hx, Hl1.
    + by rewrite app_assoc.
    + by rewrite app_assoc.
Qed.

Lemma run_bind_raise_inv {A B} (m : M A) (k : A → M B) w before e issued :
  (m ≫= k) w before = (inl e, issued) →
  m w before = (inl e, issued)
  ∨ ∃ a issued1 issued2,
      m w before = (inr a, issued1)
      ∧ k a w (before ++ issued1) = (inl e, issued2)
      ∧ issued = issued1 ++ issued2.
Proof.
  rewrite run_bind. destruct (m w before) as [[e'|a] issued1];
    [simpl; intros [= -> ->]; by left|].
  destruct (k a w (before ++ issued1)) as [r issued2] eqn:Hk. simpl.
  intros [= -> <-]. right. eauto 6.
Qed.

Lemma for_each_state {A S} (P : S → Prop) (body : S → A → M S) (l : list A) w :
  (∀ s x before s' issued,
      P s → x ∈ l → body s x w before = (inr s', issued) → P s') →
  ∀ s before s' issued,
    P s → for_each l s body w before = (inr s', issued) → P s'.
Proof.
  induction l as [|x l IH]; intros Hbody s before s' issued Hs.
  - by intros [= <- _].
  - cbn [for_each]. intros (s1 & i1 & i2 & H1 & H2 & ->)%run_bind_inv.
    eapply IH; [|eapply Hbody; [exact Hs|left|exact H1]|exact H2].
    intros. eapply Hbody; eauto. by right.
Qed.

(** The iteration for a site whose parent is unknown, under a top-level
    group: the incoming [parent_name] is what the error message gets. *)
Lemma _add_sites_edge_toplevel self site_list parent_name site top w before :
  (∀ ste, ste ∈ site_list → Site.id ste ≠ Site.parentId site) →
  toplevel self = Some top → top ≠ [] →
  _add_sites_edge self site_list (Site.id <$> site_list) parent_name site
    w before
  = (match w before (add_child top (Site.name site)) with
     | inl e =>
         inl (AnsibleParserError
                (adding_child_sites_failed (text_of e) (Site.name site)
                   parent_name))
     | inr _ => inr parent_name
     end,
     [add_child top (Site.name site)]).
Proof.
  intros Hno Htop Hne. unfold _add_sites_edge.
  rewrite decide_False; cycle 1.
  { rewrite parent_known, no_site_with_id by done. intros H. by apply H. }
  rewrite Htop. destruct top as [|c top]; [done|]. cbn [truthy default].
  rewrite run_bind. unfold except_Exception, perform.
  by destruct (w before _) as [e|[]].
Qed.

(** Property X21.  When no site has a known parent and a non-empty top-level group is
    configured, every edge has the top-level group as parent; if the
    inventory refuses one, the parser error that [_add_sites] raises names
    the site, but an empty string where the parent group belongs (the
    variable [parent_name] was never assigned), not the top-level group
    that was refused. *)
Theorem refused_toplevel_edge_reports_no_parent (self : InventoryModule)
    (w : world) (before issued : list call) (site_list : list Site.t)
    (top e site_name parent_name : pystr) :
  _site_list self = Some site_list →
  toplevel self = Some top → top ≠ [] →
  (∀ site ste, site ∈ site_list → ste ∈ site_list →
               Site.id ste ≠ Site.parentId site) →
  _add_sites self w before
  = (inl (AnsibleParserError
            (adding_child_sites_failed e site_name parent_name)), issued) →
  parent_name = []
  ∧ ∃ earlier, issued = earlier ++ [add_child top site_name].
Proof.
  intros Hsl Htop Hne Hno Hrun. unfold _add_sites in Hrun.
  rewrite Hsl in Hrun. cbn [iter] in Hrun.
  apply run_bind_raise_inv in Hrun
    as [Hrun | (sl & i0 & i0' & [= <- <-] & Hrun & ->)]; [done|].
  apply run_bind_raise_inv in Hrun as [Hrun | ([] & i1 & i1' & _ & Hrun & ->)].
  { unfold when, perform in Hrun.
    destruct (truthy (toplevel self)); [|done]. by destruct (w _ _). }
  apply run_bind_raise_inv in Hrun as [Hrun | ([] & i2 & i2' & _ & Hrun & ->)].
  { apply for_each_raise_inv in Hrun
      as (l1 & x & l2 & s1 & j1 & j2 & _ & _ & Hx & _).
    unfold perform in Hx. by destruct (w _ _). }
  apply run_bind_raise_inv in Hrun as [Hrun | (pn & i3 & i3' & _ & Hrun & _)];
    [|done].
  apply for_each_raise_inv in Hrun
    as (l1 & x & l2 & s1 & j1 & j2 & Hl & Hl1 & Hx & ->).
  assert (s1 = []) as ->.
  { revert Hl1. apply (for_each_state (fun s => s = [])); [|done].
    intros s y b s' t -> Hy.
    rewrite (_add_sites_edge_toplevel self site_list [] y top w b);
      [|intros ste Hste; apply Hno; [|done]; rewrite Hl;
        apply elem_of_app; by left |done|done].
    destruct (w b _); by intros [= <- _]. }
  rewrite (_add_sites_edge_toplevel self site_list [] x top) in Hx;
    [|intros ste Hste; apply Hno; [|done]; rewrite Hl;
      apply elem_of_app; right; by left|done|done].
  destruct (w _ _) as [e3|[]]; [|done].
  injection Hx as <- <- <- <-. split; [done|].
  eexists. by rewrite !app_assoc.
Qed.

(** One site under [root], and an inventory that refuses every edge. *)
Lemma refused_toplevel_edge_reports_no_parent_witness :
  let site_list :=
    [ {| Site.name := str "s1"; Site.id := str "1"; Site.parentId := str "0" |} ] in
  let self := set_site_list (sample_options (Some (str "root")) 500)
                (Some site_list) in
  let issued :=
    [ add_group (str "root"); add_group (str "s1");
      add_child (str "root") (str "s1") ] in
  _add_sites self (scripted_no_child [] [] (Exception (str "refused"))) []
  = (inl (AnsibleParserError
            (adding_child_sites_failed (str "refused") (str "s1") [])), issued)
  ∧ (@nil N = []
     ∧ ∃ earlier, issued = earlier ++ [add_child (str "root") (str "s1")]).
Proof.
  intros site_list self issued.
  assert (_add_sites self (scripted_no_child [] [] (Exception (str "refused"))) []
          = (inl (AnsibleParserError
                    (adding_child_sites_failed (str "refused") (str "s1") [])),
             issued)) as Hrun by (vm_compute; reflexivity).
  split; [exact Hrun|].
  refine (refused_toplevel_edge_reports_no_parent self
            (scripted_no_child [] [] (Exception (str "refused"))) []
            issued site_list (str "root") (str "refused") (str "s1") []
            _ _ _ _ Hrun).
  - reflexivity.
  - reflexivity.
  - discriminate.
  - intros site ste ->%list_elem_of_singleton ->%list_elem_of_singleton.
    discriminate.
Defined.

(** ** Hierarchy Materializer: self-parent sites and repeated ids *)

(** Property X24.  [_add_sites] has no check of its own for a site that names itself
    as parent.  With unique site ids, the iteration for such a site issues
    [add_child] with the site's group as parent and as child, and the
    answer of the inventory alone decides: a refusal becomes the parser
    error, after an accepted call the loop goes on; a run that completes
    has issued that call. *)
Theorem self_parent_site_not_guarded (self : InventoryModule)
    (site_list : list Site.t) (site : Site.t) (parent_name : pystr)
    (w : world) (before : list call) :
  NoDup (Site.id <$> site_list) →
  site ∈ site_list →
  Site.parentId site = Site.id site →
  _add_sites_edge self site_list (Site.id <$> site_list) parent_name site
    w before
  = (match w before (add_child (Site.name site) (Site.name site)) with
     | inl e =>
         inl (AnsibleParserError
                (adding_child_sites_failed (text_of e) (Site.name site)
                   (Site.name site)))
     | inr _ => inr (Site.name site)
     end,
     [add_child (Site.name site) (Site.name site)])
  ∧ (∀ issued,
       _site_list self = Some site_list →
       _add_sites self w before = (inr tt, issued) →
       add_child (Site.name site) (Site.name site) ∈ issued).
Proof.
  intros Hnd Hin Hself. split; [by apply _add_sites_edge_self_parent|].
  intros issued Hsl Hrun.
  rewrite (_add_sites_issued self w before issued site_list Hsl Hrun).
  rewrite !elem_of_app. right. right.
  apply list_elem_of_In, in_concat.
  exists (edge_calls self site_list site). split.
  - by apply list_elem_of_In, list_elem_of_fmap_2.
  - apply list_elem_of_In. unfold edge_calls.
    rewrite Hself, only_site_with_id by done. left.
Qed.

(** An inventory that refuses to make a group its own child stops the run
    at the self-parent site. *)
Lemma self_parent_site_not_guarded_witness :
  let self := set_site_list (sample_options None 500) (Some [self_parent_site]) in
  let w := scripted_no_self_child 0 (fun _ _ => []) [] [] in
  _add_sites_edge self [self_parent_site] [str "1"] [] self_parent_site
    w [add_group (str "a")]
  = (inl (AnsibleParserError
            (adding_child_sites_failed (str "can't add group to itself")
               (str "a") (str "a"))),
     [add_child (str "a") (str "a")])
  ∧ (∀ issued,
       _site_list self = Some [self_parent_site] →
       _add_sites self w [add_group (str "a")] = (inr tt, issued) →
       add_child (str "a") (str "a") ∈ issued).
Proof.
  intros self w.
  refine (self_parent_site_not_guarded self [self_parent_site]
            self_parent_site [] w [add_group (str "a")] _ _ _).
  - apply NoDup_singleton.
  - apply list_elem_of_singleton. reflexivity.
  - reflexivity.
Defined.

(** Property X25.  Whatever the inventory and whether ids repeat: when [_add_sites]
    completes, it has registered the groups and then, site by site, these
    parent edges ([edges] lists them per site, in site order).  If the
    parentId of a site is the id of a site of the list - the site itself
    included -, the one edge of the site makes the first site of the list
    with that id its parent (with unique ids: the site with that id).
    Otherwise, the one edge of the site makes the top-level group its
    parent if a non-empty top-level name is configured, and the site has
    no edge if none is. *)
Theorem parent_edges (self : InventoryModule) (w : world)
    (before issued : list call) (site_list : list Site.t) :
  _site_list self = Some site_list →
  _add_sites self w before = (inr tt, issued) →
  ∃ edges : list (list call),
    issued =
      (if truthy (toplevel self) then [add_group (default [] (toplevel self))]
       else [])
      ++ (add_group ∘ Site.name <$> site_list) ++ concat edges
    ∧ Forall2 (fun site site_edges =>
         (∀ pre p post,
            site_list = pre ++ p :: post →
            Site.id p = Site.parentId site →
            (∀ x, x ∈ pre → Site.id x ≠ Site.parentId site) →
            site_edges = [add_child (Site.name p) (Site.name site)])
         ∧ (NoDup (Site.id <$> site_list) →
            ∀ p, p ∈ site_list → Site.id p = Site.parentId site →
                 site_edges = [add_child (Site.name p) (Site.name site)])
         ∧ ((∀ p, p ∈ site_list → Site.id p ≠ Site.parentId site) →
            ∀ top, toplevel self = Some top → top ≠ [] →
                   site_edges = [add_child top (Site.name site)])
         ∧ ((∀ p, p ∈ site_list → Site.id p ≠ Site.parentId site) →
            toplevel self = None ∨ toplevel self = Some [] →
            site_edges = []))
       site_list edges.
Proof.
  intros Hsl Hrun. exists (edge_calls self site_list <$> site_list).
  split; [by apply (_add_sites_issued self w before)|].
  apply Forall2_fmap_r, Forall_Forall2_diag, Forall_forall.
  intros site _. unfold edge_calls. repeat split.
  - intros pre p post -> Hp Hpre. by rewrite first_site_with_id.
  - intros Hnd p Hin Hp. rewrite <- Hp. by rewrite only_site_with_id.
  - intros Hno top Htop Hne. rewrite no_site_with_id, Htop by done.
    by destruct top.
  - intros Hno Htop. rewrite no_site_with_id by done.
    by destruct Htop as [-> | ->].
Qed.

(** The hierarchy example of the specification, under the top-level group
    [root]: site 2 is put under site 1, sites 1 and 3 under [root]. *)
Lemma parent_edges_witness :
  let self := set_site_list (sample_options (Some (str "root")) 500)
                (Some sample_sites) in
  ∃ edges : list (list call),
    [ add_group (str "root");
      add_group (str "s1"); add_group (str "s2"); add_group (str "s3");
      add_child (str "root") (str "s1"); add_child (str "s1") (str "s2");
      add_child (str "root") (str "s3") ]
    = [add_group (str "root")]
      ++ (add_group ∘ Site.name <$> sample_sites) ++ concat edges
    ∧ Forall2 (fun site site_edges =>
         (∀ pre p post,
            sample_sites = pre ++ p :: post →
            Site.id p = Site.parentId site →
            (∀ x, x ∈ pre → Site.id x ≠ Site.parentId site) →
            site_edges = [add_child (Site.name p) (Site.name site)])
         ∧ (NoDup (Site.id <$> sample_sites) →
            ∀ p, p ∈ sample_sites → Site.id p = Site.parentId site →
                 site_edges = [add_child (Site.name p) (Site.name site)])
         ∧ ((∀ p, p ∈ sample_sites → Site.id p ≠ Site.parentId site) →
            ∀ top, Some (str "root") = Some top → top ≠ [] →
                   site_edges = [add_child top (Site.name site)])
         ∧ ((∀ p, p ∈ sample_sites → Site.id p ≠ Site.parentId site) →
            Some (str "root") = None ∨ Some (str "root") = Some [] →
            site_edges = []))
       sample_sites edges.
Proof.
  intros self.
  exact (parent_edges self (scripted 0 (fun _ _ => []) [] []) [] _ sample_sites
           eq_refl eq_refl).
Defined.

(** ** File selection: [verify_file] *)

Lemma endswith_spec (s suffix : pystr) :
  endswith s suffix = true ↔ ∃ stem, s = stem ++ suffix.
Proof.
  unfold endswith. rewrite startswith_spec. split.
  - intros [post H]. exists (rev post).
    apply (f_equal (@rev N)) in H. rewrite rev_involutive in H.
    by rewrite H, rev_app_distr, rev_involutive.
  - intros [stem ->]. exists (rev stem). by rewrite rev_app_distr.
Qed.

(** Property X22.  A configuration file is accepted exactly when the base class accepts
    it and its path ends in [dna_center.yml]; any stem will do (the suffix
    is not anchored at a path separator), and a path that ends in [.yaml]
    is refused. *)
Theorem verify_file_accepts_the_suffix (super_verify_file : pystr → bool)
    (path : pystr) :
  (verify_file super_verify_file path = true ↔
   super_verify_file path = true
   ∧ ∃ stem, path = stem ++ str "dna_center.yml")
  ∧ (∀ stem, verify_file super_verify_file (stem ++ str ".yaml") = false).
Proof.
  split.
  - unfold verify_file. cbv zeta. rewrite <- endswith_spec.
    destruct (super_verify_file path), (endswith path _); intuition congruence.
  - intros stem. unfold verify_file, endswith. cbv zeta.
    rewrite rev_app_distr.
    by destruct (super_verify_file _).
Qed.

(** ** The whole pass: [parse] *)

Lemma _get_sites_inv self w before site_list self' issued :
  _get_sites self w before = (inr (site_list, self'), issued) →
  ∃ sites, w before get_site_topology = inr sites
    ∧ site_list = site_dict_of <$> sites
    ∧ self' = set_site_list self (Some site_list)
    ∧ issued = [get_site_topology].
Proof.
  destruct (w before get_site_topology) as [e|sites] eqn:Hw.
  - unfold _get_sites. rewrite run_bind.
    unfold except_ApiError, perform. rewrite Hw. by destruct e.
  - rewrite (_get_sites_run self w before sites Hw).
    intros [= <- <- <-]. eauto.
Qed.

Lemma omap_host_of_none (l : list call) :
  Forall (fun c => host_of c = None) l → omap host_of l = [].
Proof.
  induction 1 as [|c l Hc _ IH]; [done|]. cbn [omap list_omap].
  by rewrite Hc, IH.
Qed.

(** Property X23.  A completed pass on a fresh instance registers as hosts exactly the
    collected devices whose family does not contain ["Unified AP"]: with
    the count [0 <= n < 2 ^ 53] and every page answered, the host names of
    the [add_host] calls are the host names of those devices, one call
    each, in the order of collection; access points are never registered. *)
Theorem pass_registers_the_managed_devices (use_mgmt : bool)
    (top hostname : option pystr) (family : option (list pystr))
    (location : option pystr) (w : world) (before issued : list call)
    (n p : Z) (page : Z → list Device.t) (self' : InventoryModule) :
  let self := __init__ use_mgmt top p hostname family location in
  0 <= n < 2 ^ 53 → 0 < p < 2 ^ 53 →
  w before get_device_count = inr n →
  (∀ i : nat, Z.of_nat i < ceil_div n p →
     w (before ++ get_device_count
               :: (page_request self <$> seqZ 0 (Z.of_nat i)))
       (page_request self (Z.of_nat i)) = inr (page (Z.of_nat i))) →
  parse self w before = (inr self', issued) →
  omap host_of issued
  = Device.hostname <$>
      filter (fun host => Str.find (Device.family host) Unified_AP = -1)
        (concat (page <$> seqZ 0 (ceil_div n p))).
Proof.
  intros self Hn Hp Hcount Hw Hrun.
  pose proof (offset_pages_exact n p Hn Hp) as Hpages.
  pose proof (_get_inventory_run self w before n (ceil_div n p) page
                Hcount Hpages Hw) as Hinv.
  cbv zeta in Hinv. cbn [_inventory self __init__ app] in Hinv.
  unfold parse in Hrun.
  apply run_bind_inv in Hrun as ([inv self1] & i1 & i1' & H1 & Hrun & ->).
  rewrite Hinv in H1. injection H1 as <- <- <-.
  apply run_bind_inv in Hrun as ([sl self2] & i2 & i2' & H2 & Hrun & ->).
  apply _get_sites_inv in H2 as (sites & _ & _ & -> & ->).
  apply run_bind_inv in Hrun as ([] & i3 & i3' & H3 & Hrun & ->).
  pose proof (_add_sites_only_groups
                (set_site_list
                   (set_inventory self (concat (page <$> seqZ 0 (ceil_div n p))))
                   (Some sl)) w
                ((before ++ get_device_count
                    :: (page_request self <$> seqZ 0 (ceil_div n p)))
                 ++ [get_site_topology])) as Hgroups.
  rewrite H3 in Hgroups. cbn [snd] in Hgroups.
  destruct (_get_hosts _) as [hosts self3] eqn:Hhosts.
  apply run_bind_inv in Hrun as ([] & i4 & i4' & H4 & [= _ <-] & ->).
  assert (hosts = (_get_hosts
                     (set_site_list
                        (set_inventory self
                           (concat (page <$> seqZ 0 (ceil_div n p))))
                        (Some sl))).1) as Hh by by rewrite Hhosts.
  assert (_host_list self3 = Some hosts) as Hhl.
  { unfold _get_hosts in Hhosts. by injection Hhosts as <- <-. }
  apply (_add_hosts_trace self3 w _ i4 hosts Hhl) in H4 as (Hnames & _ & _).
  rewrite !omap_app, Hnames, app_nil_r.
  rewrite (omap_host_of_none (_ :: _)), (omap_host_of_none [_]),
    (omap_host_of_none i3); cycle 1.
  { eapply Forall_impl; [exact Hgroups|]. by intros []. }
  { by repeat constructor. }
  { constructor; [done|]. apply Forall_fmap, Forall_forall. by intros. }
  cbn [app]. rewrite Hh, _get_hosts_eq. cbn [_inventory set_site_list set_inventory].
  by rewrite <- list_fmap_compose.
Qed.

(** Two devices in one page, the second an access point. *)
Lemma pass_registers_the_managed_devices_witness :
  let w := scripted 2 (fun _ _ => [sample_switch; sample_access_point])
             [ {| RawSite.name := str "HQ (Main)"; RawSite.id := str "7";
                  RawSite.parentId := str "1";
                  RawSite.locationType := str "building" |} ]
             [sample_node (str "d1") (str "7"); sample_node (str "d2") (str "7")] in
  omap host_of (parse (sample_options (Some (str "root")) 500) w []).2
  = [str "sw-d1"].
Proof.
  intros w.
  refine (pass_registers_the_managed_devices true (Some (str "root")) None
            (Some [str "Switches and Hubs"; str "Routers"]) None w [] _ 2 500
            (fun _ => [sample_switch; sample_access_point]) _ _ _ _ _ _).
  - lia.
  - lia.
  - reflexivity.
  - intros i Hi. reflexivity.
  - reflexivity.
Defined.
